(** * frkr-sdk-node: request-mirroring middleware

    A shallow embedding of the routing-and-dispatch engine of the SDK:
    the path normaliser, the stream resolver ([getStreamId]), the
    credential provider ([getAccessToken], basic-auth fallback), the two
    transports and the Express middleware returned by [mirror].

    The repository carries two generations of the entry point.  The
    transport-based one (with an explicit configuration error when no
    issuer can be determined) is embedded at top level; the older one,
    which posts with axios directly and falls back to a built-in issuer,
    lives in [Module Legacy].  [normalizePath] and [getStreamId] are the
    same in both.

    Conventions.  JavaScript strings are embedded as [string] (byte
    strings, read as UTF-8); the string operations the code uses
    ([endsWith "/*"], [slice(0,-2)], [startsWith], [split('?')]) only
    look for ASCII markers, so they commute with the encoding.  Numbers
    that the code manipulates are integral millisecond counts and are
    embedded as [Z]. *)

From Stdlib Require Import ZArith List String Ascii Bool Lia.
From Stdlib Require Import Numbers.DecimalString.
Import ListNotations.

Open Scope list_scope.
Open Scope string_scope.

(* ================================================================= *)
(** ** JavaScript values and truthiness *)

(** The values a stream id can take at run time.  [JObject] stands for
    any object or function reference; all of them are truthy. *)
Inductive JsVal : Type :=
| JUndefined
| JNull
| JBool (b : bool)
| JNum (n : Z)
| JNaN
| JStr (s : string)
| JObject (ref : nat).

Definition str_truthy (s : string) : bool := negb (String.eqb s "").

(** ToBoolean. *)
Definition truthy (v : JsVal) : bool :=
  match v with
  | JUndefined | JNull | JNaN => false
  | JBool b => b
  | JNum n => negb (Z.eqb n 0)
  | JStr s => str_truthy s
  | JObject _ => true
  end.

Definition is_undefined (v : JsVal) : bool :=
  match v with JUndefined => true | _ => false end.

(** An optional string field: [None] is [undefined]. *)
Definition opt_truthy (o : option string) : bool :=
  match o with Some s => str_truthy s | None => false end.

(** [a || b] on optional strings. *)
Definition js_or (a b : option string) : option string :=
  if opt_truthy a then a else b.

(** [a || 'literal'] where the literal is the last alternative. *)
Definition js_or_default (a : option string) (d : string) : string :=
  match a with
  | Some s => if str_truthy s then s else d
  | None => d
  end.

(* ================================================================= *)
(** ** String primitives used by the resolver *)

(** [s.startsWith(p)]. *)
Fixpoint starts_with (p s : string) : bool :=
  match p, s with
  | EmptyString, _ => true
  | String a p', String b s' => Ascii.eqb a b && starts_with p' s'
  | String _ _, EmptyString => false
  end.

(** [s.endsWith(suffix)]: some tail of [s] is [suffix]. *)
Fixpoint ends_with (suffix s : string) : bool :=
  String.eqb s suffix
  || match s with
     | EmptyString => false
     | String _ rest => ends_with suffix rest
     end.

(** [s.slice(0, -2)]. *)
Definition slice_0_minus2 (s : string) : string :=
  substring 0 (String.length s - 2) s.

(** [s.split(c)[0]]: everything before the first occurrence of [c]. *)
Fixpoint split_head (c : ascii) (s : string) : string :=
  match s with
  | EmptyString => EmptyString
  | String a rest => if Ascii.eqb a c then EmptyString
                     else String a (split_head c rest)
  end.

(* ================================================================= *)
(** ** Plain objects used as ordered maps *)

(** An array index in the sense of the language specification: the
    canonical decimal form of an integer below 2^32 - 1. *)
Definition digit_of (a : ascii) : option N :=
  let n := N_of_ascii a in
  if (N.leb 48 n && N.leb n 57)%bool then Some (n - 48)%N else None.

Fixpoint parse_digits (acc : N) (s : string) : option N :=
  match s with
  | EmptyString => Some acc
  | String a rest =>
      match digit_of a with
      | Some d => parse_digits (acc * 10 + d)%N rest
      | None => None
      end
  end.

Definition array_index (key : string) : option N :=
  match key with
  | EmptyString => None
  | String a rest =>
      if (Ascii.eqb a "0" && negb (String.eqb rest ""))%bool then None
      else match parse_digits 0%N key with
           | Some n => if N.ltb n 4294967295 then Some n else None
           | None => None
           end
  end.

(** A plain object: its own enumerable properties in creation order,
    and what a property read finds further up the prototype chain
    ([JUndefined] when nothing is there). *)
Record JsObject : Type := mkObject {
  props : list (string * JsVal);
  inherited : string -> JsVal
}.

Fixpoint own_lookup (key : string) (l : list (string * JsVal)) : option JsVal :=
  match l with
  | [] => None
  | (k, v) :: rest => if String.eqb k key then Some v else own_lookup key rest
  end.

(** [o[key]]. *)
Definition obj_get (o : JsObject) (key : string) : JsVal :=
  match own_lookup key (props o) with
  | Some v => v
  | None => inherited o key
  end.

(** Insertion of an index-keyed entry into the ascending run. *)
Fixpoint insert_index (n : N) (e : string * JsVal)
         (l : list (N * (string * JsVal))) : list (N * (string * JsVal)) :=
  match l with
  | [] => [(n, e)]
  | (m, e') :: rest =>
      if N.leb n m then (n, e) :: l else (m, e') :: insert_index n e rest
  end.

Fixpoint index_entries (l : list (string * JsVal)) : list (N * (string * JsVal)) :=
  match l with
  | [] => []
  | e :: rest =>
      match array_index (fst e) with
      | Some n => insert_index n e (index_entries rest)
      | None => index_entries rest
      end
  end.

Definition named_entries (l : list (string * JsVal)) : list (string * JsVal) :=
  filter (fun e => match array_index (fst e) with Some _ => false | None => true end) l.

(** [Object.entries(o)]: array-index keys in ascending numeric order,
    then the remaining keys in creation order. *)
Definition Object_entries (o : JsObject) : list (string * JsVal) :=
  (map snd (index_entries (props o)) ++ named_entries (props o))%list.

(** An object literal has no two properties with the same key. *)
Definition wf_object (o : JsObject) : Prop := NoDup (map fst (props o)).

(** What every object literal inherits: the members of
    [Object.prototype], each an object or function of the runtime. *)
Definition Object_prototype_keys : list string :=
  ["constructor"; "__proto__"; "hasOwnProperty"; "isPrototypeOf";
   "propertyIsEnumerable"; "toLocaleString"; "toString"; "valueOf";
   "__defineGetter__"; "__defineSetter__"; "__lookupGetter__";
   "__lookupSetter__"].

Fixpoint position (key : string) (keys : list string) : option nat :=
  match keys with
  | [] => None
  | k :: rest => if String.eqb k key then Some 0
                 else option_map S (position key rest)
  end.

Definition Object_prototype (key : string) : JsVal :=
  match position key Object_prototype_keys with
  | Some n => JObject n
  | None => JUndefined
  end.

(** The object an object literal [{ k1: v1, ... }] evaluates to. *)
Definition literal (l : list (string * JsVal)) : JsObject :=
  mkObject l Object_prototype.

(* ================================================================= *)
(** ** Requests and configuration *)

(** The read-only projection of the host framework's request. *)
Record RequestView : Type := mkRequest {
  req_method : string;
  req_path : option string;
  req_url : option string;
  req_headers : list (string * string);
  req_body : JsVal;
  req_query : option (list (string * string))
}.

(** What [config.streamId] can be, as far as [typeof] and truthiness
    tell the cases apart. *)
Inductive StreamIdConfig : Type :=
| SidFunction (resolve : RequestView -> JsVal)
| SidObject (o : JsObject)
| SidString (s : string)
| SidFalsy          (* undefined, null, false, 0, NaN *)
| SidOther.         (* any other truthy primitive: true, 42, a symbol *)

Definition sid_truthy (c : StreamIdConfig) : bool :=
  match c with
  | SidFunction _ | SidObject _ | SidOther => true
  | SidString s => str_truthy s
  | SidFalsy => false
  end.

Record Config : Type := mkConfig {
  streamId : StreamIdConfig;
  transport : option string;
  ingestGatewayUrl : option string;
  username : option string;
  password : option string;
  clientId : option string;
  clientSecret : option string;
  issuer : option string;
  authDomain : option string;
  audience : option string
}.

(** [process.env]. *)
Record ProcessEnv : Type := mkEnv {
  FRKR_STREAM_ID : option string;
  FRKR_TRANSPORT : option string;
  FRKR_INGEST_URL : option string;
  FRKR_USERNAME : option string;
  FRKR_PASSWORD : option string;
  FRKR_CLIENT_ID : option string;
  FRKR_CLIENT_SECRET : option string
}.

(** [mirror(config = {})] with nothing configured. *)
Definition empty_config : Config :=
  mkConfig SidFalsy None None None None None None None None None.

Definition empty_env : ProcessEnv :=
  mkEnv None None None None None None None.

(* ================================================================= *)
(** ** Path normaliser *)

Definition normalizePath (req : RequestView) : string :=
  let path :=
    if (negb (opt_truthy (req_path req)) && opt_truthy (req_url req))%bool
    then option_map (split_head "?") (req_url req)
    else req_path req in
  js_or_default path "/".

(* ================================================================= *)
(** ** Stream resolver *)

(** [config.streamId || process.env.FRKR_STREAM_ID]. *)
Definition streamIdConfig (config : Config) (env : ProcessEnv) : StreamIdConfig :=
  if sid_truthy (streamId config) then streamId config
  else match FRKR_STREAM_ID env with
       | Some s => SidString s
       | None => SidFalsy
       end.

(** [path === prefix || path.startsWith(prefix + '/')] for the prefix
    of a pattern ending in "/*". *)
Definition prefix_matches (path pattern : string) : bool :=
  let prefix := slice_0_minus2 pattern in
  (String.eqb path prefix || starts_with (prefix ++ "/") path)%bool.

(** The [for ... of Object.entries(streamIdConfig)] loop; [None] when
    the loop runs to its end without returning. *)
Fixpoint scan_prefixes (path : string) (entries : list (string * JsVal))
  : option JsVal :=
  match entries with
  | [] => None
  | (pattern, sid) :: rest =>
      if (String.eqb pattern "*" || String.eqb pattern path)%bool
      then scan_prefixes path rest
      else if (ends_with "/*" pattern && prefix_matches path pattern)%bool
           then Some sid
           else scan_prefixes path rest
  end.

Definition getStreamId (config : Config) (env : ProcessEnv) (req : RequestView)
  : JsVal :=
  match streamIdConfig config env with
  | SidFunction resolve => resolve req
  | SidObject o =>
      let path := normalizePath req in
      if negb (is_undefined (obj_get o path)) then obj_get o path
      else match scan_prefixes path (Object_entries o) with
           | Some sid => sid
           | None =>
               if negb (is_undefined (obj_get o "*")) then obj_get o "*"
               else JNull
           end
  | SidString s => JStr s
  | SidFalsy | SidOther => JNull
  end.

(* ================================================================= *)
(** ** Errors, promises and the effects of one request *)

Record Error : Type := mkError { message : string }.

(** The result of evaluating a piece of code, or of settling a promise:
    a value, or a thrown exception (a rejection). *)
Inductive Completion (A : Type) : Type :=
| Normal (a : A)
| Thrown (e : Error).
Arguments Normal {A} a.
Arguments Thrown {A} e.

(** The token set handed back by the identity provider. *)
Record TokenSet : Type := mkTokenSet {
  access_token : option string;
  expires_in : option Z
}.

(** The discovered issuer (opaque). *)
Inductive Issuer : Type := IssuerHandle (metadata : string).

(** The envelope posted to the ingest gateway. *)
Record MirroredRequest : Type := mkMirrored {
  method : string;
  path : string;
  headers : list (string * string);
  body : string;
  query : list (string * string);
  timestamp_ns : Z;
  request_id : string
}.

Record RequestData : Type := mkRequestData {
  stream_id : JsVal;
  request : MirroredRequest
}.

(** What one request does to the outside world, in program order.
    [EvSuspend] marks a point where an [await] hands control back to the
    event loop: everything before the first [EvSuspend] happens in the
    synchronous turn in which the middleware was entered. *)
Inductive Event : Type :=
| EvNext
| EvConsoleError (text : string)
| EvDiscover (issuerUrl : string)
| EvGrant (iss : Issuer) (client_id client_secret : option string)
          (audience_ : string)
| EvAxiosPost (url : string) (data : RequestData) (authorization : string)
| EvGrpcIngest (address : string) (data : RequestData)
               (metadata : list (string * string))
| EvSuspend.

(** What the network does to a POST. *)
Inductive HttpResult : Type :=
| ConnectionError (e : Error)
| Response (status : Z).

(** The collaborators of the middleware: clock, random source, the
    serialiser, the identity provider and the two wires.  The [nat]
    argument is the number of effects performed so far, so that two
    calls in one run may be answered differently. *)
Record Runtime : Type := mkRuntime {
  Date_now : nat -> Z;
  Math_random_base36 : nat -> string;
  JSON_stringify : JsVal -> Completion string;
  URL_searchParams : option string -> Completion (list (string * string));
  Issuer_discover : nat -> string -> Completion Issuer;
  client_grant : nat -> Issuer -> option string -> option string -> string
                 -> Completion TokenSet;
  network : nat -> string -> HttpResult;
  grpc_call : nat -> string -> option Error
}.

(** The module-level state: [tokenCache] and [issuerCache]. *)
Record TokenCache : Type := mkTokenCache {
  accessToken : option string;
  expiresAt : Z
}.

Record World : Type := mkWorld {
  tokenCache : TokenCache;
  issuerCache : option Issuer;
  steps : nat;
  trace : list Event
}.

(** [let tokenCache = { accessToken: null, expiresAt: 0 }; let issuerCache = null]. *)
Definition initial_world : World :=
  mkWorld (mkTokenCache None 0) None 0 [].

(** State-and-exception monad over the world. *)
Definition M (A : Type) : Type := World -> Completion A * World.

Definition ret {A} (a : A) : M A := fun w => (Normal a, w).

Definition throw {A} (e : Error) : M A := fun w => (Thrown e, w).

Definition bind {A B} (m : M A) (k : A -> M B) : M B :=
  fun w => match m w with
           | (Normal a, w') => k a w'
           | (Thrown e, w') => (Thrown e, w')
           end.

Notation "x <- m ;; k" := (bind m (fun x => k))
  (at level 61, m at next level, right associativity).
Notation "m ;; k" := (bind m (fun _ => k))
  (at level 61, right associativity).

(** [try { m } catch (err) { h err }]. *)
Definition try_catch {A} (m : M A) (h : Error -> M A) : M A :=
  fun w => match m w with
           | (Normal a, w') => (Normal a, w')
           | (Thrown e, w') => h e w'
           end.

(** Run [m] and reify how it completed. *)
Definition attempt {A} (m : M A) : M (Completion A) :=
  fun w => match m w with (c, w') => (Normal c, w') end.

Definition lift {A} (c : Completion A) : M A := fun w => (c, w).

Definition record_event (e : Event) (w : World) : World :=
  mkWorld (tokenCache w) (issuerCache w) (steps w) (trace w ++ [e])%list.

Definition emit (e : Event) : M unit :=
  fun w => (Normal tt, record_event e w).

Definition tick : M nat :=
  fun w => (Normal (steps w),
            mkWorld (tokenCache w) (issuerCache w) (S (steps w)) (trace w)).

Definition get_tokenCache : M TokenCache := fun w => (Normal (tokenCache w), w).

Definition set_tokenCache (c : TokenCache) : M unit :=
  fun w => (Normal tt, mkWorld c (issuerCache w) (steps w) (trace w)).

Definition get_issuerCache : M (option Issuer) :=
  fun w => (Normal (issuerCache w), w).

Definition set_issuerCache (i : Issuer) : M unit :=
  fun w => (Normal tt, mkWorld (tokenCache w) (Some i) (steps w) (trace w)).

(** [Date.now()]. *)
Definition date_now (rt : Runtime) : M Z :=
  n <- tick ;; ret (Date_now rt n).

(** [console.error(label, err.message)]. *)
Definition console_error (label : string) (err : Error) : M unit :=
  emit (EvConsoleError (label ++ " " ++ message err)).

(** [await p] for a promise that settles as [c]. *)
Definition await {A} (c : Completion A) : M A :=
  emit EvSuspend ;; lift c.

(** [await f(...)] for an async function whose body is [m]: the body
    runs, and the caller resumes on a later turn with its outcome. *)
Definition await_call {A} (m : M A) : M A :=
  c <- attempt m ;; await c.

(** A promise as seen by the code that created it: the part of the work
    that is still to run on a later turn.  It is fulfilled when that
    part completes normally and rejected when it throws. *)
Inductive Promise (A : Type) : Type :=
| Pending (rest : M A).
Arguments Pending {A} rest.

Definition settle {A} (p : Promise A) : M A :=
  match p with Pending rest => rest end.

(** [p.catch(handler)]. *)
Definition promise_catch (p : Promise unit) (handler : Error -> M unit)
  : Promise unit :=
  Pending (try_catch (settle p) handler).

(** A promise nobody awaits: it settles after the current turn, and a
    rejection is nobody's business. *)
Definition detached (p : Promise unit) : M unit :=
  emit EvSuspend ;; _ <- attempt (settle p) ;; ret tt.

Definition Z_to_string (z : Z) : string := NilEmpty.string_of_int (Z.to_int z).

(* ================================================================= *)
(** ** Base64 ([Buffer.from(s).toString('base64')]) *)

Definition base64_alphabet : string :=
  "ABCDEFGHIJKLMNOPQRSTUVWXYZabcdefghijklmnopqrstuvwxyz0123456789+/".

Definition base64_digit (n : N) : ascii :=
  match String.get (N.to_nat n) base64_alphabet with
  | Some c => c
  | None => "="%char
  end.

Fixpoint base64 (s : string) : string :=
  match s with
  | EmptyString => EmptyString
  | String a EmptyString =>
      let x := N_of_ascii a in
      String (base64_digit (x / 4))
        (String (base64_digit ((x mod 4) * 16)) "==")
  | String a (String b EmptyString) =>
      let x := N_of_ascii a in
      let y := N_of_ascii b in
      String (base64_digit (x / 4))
        (String (base64_digit ((x mod 4) * 16 + y / 16))
           (String (base64_digit ((y mod 16) * 4)) "="))
  | String a (String b (String c rest)) =>
      let x := N_of_ascii a in
      let y := N_of_ascii b in
      let z := N_of_ascii c in
      String (base64_digit (x / 4))
        (String (base64_digit ((x mod 4) * 16 + y / 16))
           (String (base64_digit ((y mod 16) * 4 + z / 64))
              (String (base64_digit (z mod 64)) (base64 rest))))
  end.

(** The inverse table and the decoder, to check the encoder against. *)
Fixpoint find_digit (c : ascii) (alphabet : string) (i : N) : option N :=
  match alphabet with
  | EmptyString => None
  | String a rest => if Ascii.eqb a c then Some i else find_digit c rest (i + 1)%N
  end.

Definition base64_value (c : ascii) : option N := find_digit c base64_alphabet 0.

Fixpoint base64_decode (s : string) : option string :=
  match s with
  | EmptyString => Some EmptyString
  | String c1 (String c2 (String c3 (String c4 rest))) =>
      match base64_value c1, base64_value c2 with
      | Some v1, Some v2 =>
          let b1 := ascii_of_N (v1 * 4 + v2 / 16) in
          if Ascii.eqb c3 "=" then
            if (Ascii.eqb c4 "=" && String.eqb rest "")%bool
            then Some (String b1 "") else None
          else
            match base64_value c3 with
            | Some v3 =>
                let b2 := ascii_of_N ((v2 mod 16) * 16 + v3 / 4) in
                if Ascii.eqb c4 "=" then
                  if String.eqb rest "" then Some (String b1 (String b2 ""))
                  else None
                else
                  match base64_value c4, base64_decode rest with
                  | Some v4, Some tail =>
                      Some (String b1 (String b2
                              (String (ascii_of_N ((v3 mod 4) * 64 + v4)) tail)))
                  | _, _ => None
                  end
            | None => None
            end
      | _, _ => None
      end
  | _ => None
  end.

(** [`Basic ${Buffer.from(`${username}:${password}`).toString('base64')}`]. *)
Definition basic_auth_header (user pass : string) : string :=
  "Basic " ++ base64 (user ++ ":" ++ pass).

(* ================================================================= *)
(** ** Credential provider *)

(** [tokenCache.accessToken && Date.now() < tokenCache.expiresAt - 60000];
    the clock is read only when a token is cached. *)
Definition cached_token (rt : Runtime) : M (option string) :=
  cache <- get_tokenCache ;;
  if opt_truthy (accessToken cache) then
    now <- date_now rt ;;
    if (now <? expiresAt cache - 60000)%Z then ret (accessToken cache)
    else ret None
  else ret None.

(** The body of the [try] block once the issuer URL is known: discovery
    (unless cached), the client-credentials grant, and the cache write.
    The client built from [issuerCache.Client] is the issuer together
    with the id and the secret, which is what [EvGrant] records. *)
Definition fetch_token (rt : Runtime) (config : Config) (issuerUrl : string)
  : M string :=
  cachedIssuer <- get_issuerCache ;;
  iss <- match cachedIssuer with
         | Some i => ret i
         | None =>
             emit (EvDiscover issuerUrl) ;;
             n <- tick ;;
             i <- await (Issuer_discover rt n issuerUrl) ;;
             set_issuerCache i ;;
             ret i
         end ;;
  let audience_ := js_or_default (audience config) "https://api.frkr.io" in
  emit (EvGrant iss (clientId config) (clientSecret config) audience_) ;;
  n <- tick ;;
  tokenSet <- await (client_grant rt n iss (clientId config)
                                  (clientSecret config) audience_) ;;
  match access_token tokenSet with
  | Some tok =>
      if str_truthy tok then
        cache <- get_tokenCache ;;
        set_tokenCache (mkTokenCache (Some tok) (expiresAt cache)) ;;
        match expires_in tokenSet with
        | Some secs =>
            if negb (Z.eqb secs 0) then
              now <- date_now rt ;;
              set_tokenCache (mkTokenCache (Some tok) (now + secs * 1000)%Z)
            else
              now <- date_now rt ;;
              set_tokenCache (mkTokenCache (Some tok) (now + 3600000)%Z)
        | None =>
            now <- date_now rt ;;
            set_tokenCache (mkTokenCache (Some tok) (now + 3600000)%Z)
        end ;;
        ret tok
      else throw (mkError "No access_token received from provider")
  | None => throw (mkError "No access_token received from provider")
  end.

(** [config.issuer || (config.authDomain ? `https://${config.authDomain}` : null)]. *)
Definition issuerUrl_of (config : Config) : option string :=
  js_or (issuer config)
        (match authDomain config with
         | Some d => if str_truthy d then Some ("https://" ++ d) else None
         | None => None
         end).

Definition getAccessToken (rt : Runtime) (config : Config) : M string :=
  hit <- cached_token rt ;;
  match hit with
  | Some tok => ret tok
  | None =>
      try_catch
        (match issuerUrl_of config with
         | Some issuerUrl =>
             if str_truthy issuerUrl then fetch_token rt config issuerUrl
             else throw (mkError "OIDC issuer or authDomain is required")
         | None => throw (mkError "OIDC issuer or authDomain is required")
         end)
        (fun err =>
           console_error "Failed to fetch access token:" err ;;
           throw err)
  end.

(* ================================================================= *)
(** ** Transports *)

(** The capability both transports implement: [send(requestData, authHeader)]. *)
Record Transport : Type := mkTransport {
  send : RequestData -> string -> M (Promise unit)
}.

(** [axios.post] rejects on a connection error and on any status outside
    200..299. *)
Definition axios_settles (r : HttpResult) : Completion unit :=
  match r with
  | ConnectionError e => Thrown e
  | Response status =>
      if ((200 <=? status) && (status <? 300))%Z then Normal tt
      else Thrown (mkError ("Request failed with status code "
                            ++ Z_to_string status))
  end.

(** [axios.post(url, data, { headers })]: the request leaves at once,
    the promise settles later. *)
Definition axios_post (rt : Runtime) (url : string) (data : RequestData)
           (authorization : string) : M (Completion unit) :=
  emit (EvAxiosPost url data authorization) ;;
  n <- tick ;;
  ret (axios_settles (network rt n url)).

Module HttpTransport.

Definition ingestGatewayUrl_of (config : Config) (env : ProcessEnv) : string :=
  js_or_default (js_or (ingestGatewayUrl config) (FRKR_INGEST_URL env))
                "http://localhost:8082".

Definition send (rt : Runtime) (gatewayUrl : string)
           (requestData : RequestData) (authHeader : string)
  : M (Promise unit) :=
  posted <- axios_post rt (gatewayUrl ++ "/ingest") requestData authHeader ;;
  ret (Pending
         (try_catch (lift posted)
            (fun err =>
               console_error "Failed to mirror request (HTTP):" err))).

Definition new (rt : Runtime) (config : Config) (env : ProcessEnv) : Transport :=
  mkTransport (send rt (ingestGatewayUrl_of config env)).

End HttpTransport.

Module GrpcTransport.

Definition address_of (config : Config) (env : ProcessEnv) : string :=
  js_or_default (js_or (ingestGatewayUrl config) (FRKR_INGEST_URL env))
                "localhost:50051".

(** The body has no [await]: the call is issued and the promise is
    fulfilled; the callback is all that is left for a later turn. *)
Definition send (rt : Runtime) (address : string)
           (requestData : RequestData) (authHeader : string)
  : M (Promise unit) :=
  let metadata := if str_truthy authHeader
                  then [("authorization", authHeader)] else [] in
  emit (EvGrpcIngest address requestData metadata) ;;
  n <- tick ;;
  ret (Pending
         (match grpc_call rt n address with
          | Some err => console_error "Failed to mirror request (gRPC):" err
          | None => ret tt
          end)).

Definition new (rt : Runtime) (config : Config) (env : ProcessEnv) : Transport :=
  mkTransport (send rt (address_of config env)).

End GrpcTransport.

(* ================================================================= *)
(** ** Middleware entry point *)

(** The third argument of the middleware. *)
Inductive NextArg : Type :=
| NextFunction
| NextMissing.

(** [if (typeof next === 'function') next()]. *)
Definition call_if_function (next : NextArg) : M unit :=
  match next with
  | NextFunction => emit EvNext
  | NextMissing => ret tt
  end.

(** [req.body ? JSON.stringify(req.body) : ''] *)
Definition capture_body (rt : Runtime) (req : RequestView) : M string :=
  if truthy (req_body req) then lift (JSON_stringify rt (req_body req))
  else ret "".

(** [`req-${Date.now()}-${Math.random().toString(36).substr(2, 9)}`] *)
Definition fresh_request_id (rt : Runtime) : M string :=
  now <- date_now rt ;;
  n <- tick ;;
  ret ("req-" ++ Z_to_string now ++ "-" ++ Math_random_base36 rt n).

(** [{ ...config, clientId, clientSecret }] *)
Definition with_credentials (config : Config) (cid csecret : option string)
  : Config :=
  mkConfig (streamId config) (transport config) (ingestGatewayUrl config)
           (username config) (password config) cid csecret
           (issuer config) (authDomain config) (audience config).

(** The [try { ... } catch (err) { ... }] that builds the header; [None]
    when the [catch] branch was taken. *)
Definition build_auth_header (getToken : Config -> M string) (config : Config)
           (cid csecret : option string) (user pass : string)
  : M (option string) :=
  try_catch
    (if (opt_truthy cid && opt_truthy csecret)%bool then
       token <- await_call (getToken (with_credentials config cid csecret)) ;;
       ret (Some ("Bearer " ++ token))
     else
       ret (Some (basic_auth_header user pass)))
    (fun _ => ret None).

(** "Capture request data": the object literal is evaluated field by
    field, and the [body] field is written twice.  [timestamp_ns] is the
    exact product; the double the runtime computes is its rounding. *)
Definition capture_request (rt : Runtime) (req : RequestView) (streamId_ : JsVal)
  : M RequestData :=
  let path_ := normalizePath req in
  _ <- capture_body rt req ;;
  body_ <- capture_body rt req ;;
  query_ <- match req_query req with
            | Some q => ret q
            | None => lift (URL_searchParams rt (req_url req))
            end ;;
  now <- date_now rt ;;
  request_id_ <- fresh_request_id rt ;;
  ret (mkRequestData streamId_
         (mkMirrored (req_method req) path_ (req_headers req) body_ query_
                     (now * 1000000)%Z request_id_)).

(** "Send via selected transport (fire and forget)", then [next()]. *)
Definition dispatch (transport_ : Transport) (transportType : string)
           (requestData : RequestData) (authHeader : string) (next : NextArg)
  : M unit :=
  sent <- send transport_ requestData authHeader ;;
  let logged :=
    promise_catch sent
      (console_error ("Failed to mirror request (" ++ transportType ++ "):")) in
  call_if_function next ;;
  detached logged.

Definition transportType_of (config : Config) (env : ProcessEnv) : string :=
  js_or_default (js_or (transport config) (FRKR_TRANSPORT env)) "http".

(** "Select Transport". *)
Definition select_transport (rt : Runtime) (config : Config) (env : ProcessEnv)
  : Transport :=
  if String.eqb (transportType_of config env) "grpc"
  then GrpcTransport.new rt config env
  else HttpTransport.new rt config env.

Definition mirror (rt : Runtime) (config : Config) (env : ProcessEnv)
  : RequestView -> NextArg -> M unit :=
  let transportType := transportType_of config env in
  let transport_ := select_transport rt config env in
  let username_ := js_or_default (js_or (username config) (FRKR_USERNAME env)) "testuser" in
  let password_ := js_or_default (js_or (password config) (FRKR_PASSWORD env)) "testpass" in
  let clientId_ := js_or (clientId config) (FRKR_CLIENT_ID env) in
  let clientSecret_ := js_or (clientSecret config) (FRKR_CLIENT_SECRET env) in
  fun req next =>
    let streamId_ := getStreamId config env req in
    if negb (truthy streamId_) then call_if_function next
    else
      requestData <- capture_request rt req streamId_ ;;
      authHeader <- build_auth_header (getAccessToken rt) config
                      clientId_ clientSecret_ username_ password_ ;;
      match authHeader with
      | None => call_if_function next
      | Some authHeader_ =>
          dispatch transport_ transportType requestData authHeader_ next
      end.

(* ================================================================= *)
(** ** The older entry point *)

Module Legacy.

(** The issuer URL falls back to a built-in tenant. *)
Definition issuerUrl_of (config : Config) : string :=
  js_or_default (issuer config)
    (match authDomain config with
     | Some d => if str_truthy d then "https://" ++ d
                 else "https://dev-frkr.us.auth0.com"
     | None => "https://dev-frkr.us.auth0.com"
     end).

Definition getAccessToken (rt : Runtime) (config : Config) : M string :=
  hit <- cached_token rt ;;
  match hit with
  | Some tok => ret tok
  | None =>
      try_catch
        (fetch_token rt config (issuerUrl_of config))
        (fun err =>
           console_error "Failed to fetch access token:" err ;;
           throw err)
  end.

(** [next()] with no guard. *)
Definition call_next (next : NextArg) : M unit :=
  match next with
  | NextFunction => emit EvNext
  | NextMissing => throw (mkError "next is not a function")
  end.

(** "Capture request data": [query] falls back to an empty object. *)
Definition capture_request (rt : Runtime) (req : RequestView)
           (streamId_ : JsVal) : M RequestData :=
  let path_ := normalizePath req in
  body_ <- capture_body rt req ;;
  let query_ := match req_query req with Some q => q | None => [] end in
  now <- date_now rt ;;
  request_id_ <- fresh_request_id rt ;;
  ret (mkRequestData streamId_
         (mkMirrored (req_method req) path_ (req_headers req) body_ query_
                     (now * 1000000)%Z request_id_)).

(** "Send to Ingest Gateway (fire and forget)", then [next()]. *)
Definition dispatch (rt : Runtime) (gatewayUrl : string)
           (requestData : RequestData) (authHeader : string)
           (next : NextArg) : M unit :=
  posted <- axios_post rt (gatewayUrl ++ "/ingest") requestData authHeader ;;
  let logged :=
    promise_catch (Pending (lift posted))
      (console_error "Failed to mirror request:") in
  called <- attempt (call_next next) ;;
  detached logged ;;
  lift called.

Definition mirror (rt : Runtime) (config : Config) (env : ProcessEnv)
  : RequestView -> NextArg -> M unit :=
  let gatewayUrl :=
    js_or_default (js_or (ingestGatewayUrl config) (FRKR_INGEST_URL env))
                  "http://localhost:8082" in
  let username_ := js_or_default (js_or (username config) (FRKR_USERNAME env)) "testuser" in
  let password_ := js_or_default (js_or (password config) (FRKR_PASSWORD env)) "testpass" in
  let clientId_ := js_or (clientId config) (FRKR_CLIENT_ID env) in
  let clientSecret_ := js_or (clientSecret config) (FRKR_CLIENT_SECRET env) in
  fun req next =>
    let streamId_ := getStreamId config env req in
    if negb (truthy streamId_) then call_next next
    else
      requestData <- capture_request rt req streamId_ ;;
      authHeader <- build_auth_header (getAccessToken rt) config
                      clientId_ clientSecret_ username_ password_ ;;
      match authHeader with
      | None => call_next next
      | Some authHeader_ =>
          dispatch rt gatewayUrl requestData authHeader_ next
      end.

End Legacy.

(* ================================================================= *)
(** ** Vocabulary of the statements *)

(** A world with the given module state and nothing observed yet. *)
Definition start (tc : TokenCache) (ic : option Issuer) (n : nat) : World :=
  mkWorld tc ic n [].

Definition is_next (e : Event) : bool :=
  match e with EvNext => true | _ => false end.

Definition is_suspend (e : Event) : bool :=
  match e with EvSuspend => true | _ => false end.

(** Calls to the identity provider. *)
Definition is_idp_call (e : Event) : bool :=
  match e with EvDiscover _ | EvGrant _ _ _ _ => true | _ => false end.

(** Deliveries handed to a wire. *)
Definition is_dispatch (e : Event) : bool :=
  match e with EvAxiosPost _ _ _ | EvGrpcIngest _ _ _ => true | _ => false end.

(** What the credential provider itself can do. *)
Definition is_token_event (e : Event) : bool :=
  match e with
  | EvDiscover _ | EvGrant _ _ _ _ | EvSuspend | EvConsoleError _ => true
  | _ => false
  end.

Definition count_next (tr : list Event) : nat := List.length (filter is_next tr).

Definition idp_calls (tr : list Event) : list Event := filter is_idp_call tr.

Definition dispatches (tr : list Event) : list Event := filter is_dispatch tr.

(** The events of the synchronous turn in which the run started. *)
Fixpoint sync_turn (tr : list Event) : list Event :=
  match tr with
  | [] => []
  | e :: rest => if is_suspend e then [] else e :: sync_turn rest
  end.

(** The authorization value carried by each delivery. *)
Fixpoint authorizations (tr : list Event) : list (option string) :=
  match tr with
  | [] => []
  | EvAxiosPost _ _ a :: rest => Some a :: authorizations rest
  | EvGrpcIngest _ _ md :: rest =>
      match md with
      | [(_, a)] => Some a
      | _ => None
      end :: authorizations rest
  | _ :: rest => authorizations rest
  end.

Definition is_console_error (e : Event) : bool :=
  match e with EvConsoleError _ => true | _ => false end.

(** How long a granted token is held valid, in milliseconds:
    [expires_in * 1000] when [tokenSet.expires_in] is truthy, an hour
    otherwise. *)
Definition validity_ms (ts : TokenSet) : Z :=
  match expires_in ts with
  | Some secs => if Z.eqb secs 0 then 3600000 else secs * 1000
  | None => 3600000
  end.

(** What [HttpTransport.send] leaves on the console once the POST has
    settled. *)
Definition http_failure_log (r : HttpResult) : list Event :=
  match axios_settles r with
  | Normal _ => []
  | Thrown err =>
      [EvConsoleError ("Failed to mirror request (HTTP): " ++ message err)]
  end.

(** [clientId && clientSecret] as [mirror] resolves them. *)
Definition uses_client_credentials (config : Config) (env : ProcessEnv) : bool :=
  (opt_truthy (js_or (clientId config) (FRKR_CLIENT_ID env))
   && opt_truthy (js_or (clientSecret config) (FRKR_CLIENT_SECRET env)))%bool.

(** The configuration [getAccessToken] receives from [mirror]. *)
Definition token_config (config : Config) (env : ProcessEnv) : Config :=
  with_credentials config
    (js_or (clientId config) (FRKR_CLIENT_ID env))
    (js_or (clientSecret config) (FRKR_CLIENT_SECRET env)).

Definition resolved_username (config : Config) (env : ProcessEnv) : string :=
  js_or_default (js_or (username config) (FRKR_USERNAME env)) "testuser".

Definition resolved_password (config : Config) (env : ProcessEnv) : string :=
  js_or_default (js_or (password config) (FRKR_PASSWORD env)) "testpass".

Definition completes {A} (c : Completion A) : bool :=
  match c with Normal _ => true | Thrown _ => false end.

(** Building the envelope does not throw: the body serialises, and the
    query string parses when the framework supplied no [req.query]. *)
Definition body_serialises (rt : Runtime) (req : RequestView) : bool :=
  (negb (truthy (req_body req)) || completes (JSON_stringify rt (req_body req)))%bool.

Definition capture_ok (rt : Runtime) (req : RequestView) : bool :=
  (body_serialises rt req
   && match req_query req with
      | Some _ => true
      | None => completes (URL_searchParams rt (req_url req))
      end)%bool.

(** The same configuration with another [streamId]. *)
Definition set_streamId (c : StreamIdConfig) (config : Config) : Config :=
  mkConfig c (transport config) (ingestGatewayUrl config)
           (username config) (password config) (clientId config)
           (clientSecret config) (issuer config) (authDomain config)
           (audience config).

Definition with_streamId (c : StreamIdConfig) : Config :=
  set_streamId c empty_config.

(** The two generations of the entry point. *)
Inductive Generation : Type := Current | Older.

Definition getAccessToken_of (g : Generation)
  : Runtime -> Config -> M string :=
  match g with
  | Current => getAccessToken
  | Older => Legacy.getAccessToken
  end.

Definition mirror_of (g : Generation)
  : Runtime -> Config -> ProcessEnv -> RequestView -> NextArg -> M unit :=
  match g with
  | Current => mirror
  | Older => Legacy.mirror
  end.

(* ================================================================= *)
(** ** Sample data *)

(** A request as Express presents it. *)
Definition express_request (p : string) : RequestView :=
  mkRequest "GET" (Some p) (Some p) [] JUndefined (Some []).

(** A request as the bare [http] module presents it. *)
Definition node_request (u : string) : RequestView :=
  mkRequest "GET" None (Some u) [] JUndefined None.

Definition api_routes : JsObject :=
  literal [("/api/v1/*", JStr "v1"); ("/api/*", JStr "api"); ("*", JStr "default")].

Definition order_routes : JsObject :=
  literal [("/api/*", JStr "api-stream"); ("*", JStr "default");
           ("/api/orders", JStr "orders-stream")].

(** A provider that answers every grant with [ts], a gateway that
    answers every POST with [status]. *)
Definition sample_runtime (ts : TokenSet) (status : Z) : Runtime :=
  mkRuntime (fun n => 1700000000000 + Z.of_nat n)%Z (fun _ => "k3j9x0q1z")
    (fun _ => Normal "{}") (fun _ => Normal [])
    (fun _ url => Normal (IssuerHandle url))
    (fun _ _ _ _ _ => Normal ts)
    (fun _ _ => Response status) (fun _ _ => None).

(** A provider that cannot be reached. *)
Definition offline_runtime : Runtime :=
  mkRuntime (fun n => 1700000000000 + Z.of_nat n)%Z (fun _ => "k3j9x0q1z")
    (fun _ => Normal "{}") (fun _ => Normal [])
    (fun _ _ => Thrown (mkError "getaddrinfo ENOTFOUND"))
    (fun _ _ _ _ _ => Thrown (mkError "connect ECONNREFUSED"))
    (fun _ _ => ConnectionError (mkError "connect ECONNREFUSED"))
    (fun _ _ => Some (mkError "14 UNAVAILABLE")).

(** Client credentials with an auth domain. *)
Definition oidc_config : Config :=
  mkConfig (SidString "my-api") None None None None
           (Some "client-id") (Some "client-secret")
           None (Some "tenant.example.com") None.

(** Client credentials with neither issuer nor auth domain. *)
Definition oidc_config_no_issuer : Config :=
  mkConfig (SidString "my-api") None None None None
           (Some "client-id") (Some "client-secret") None None None.

(** Client credentials with only the id configured. *)
Definition half_configured : Config :=
  mkConfig (SidString "my-api") None None (Some "u") (Some "p")
           (Some "client-id") None None None None.

(* ================================================================= *)
(** ** Further vocabulary *)

(** [s.includes(c)]. *)
Fixpoint has_char (c : ascii) (s : string) : bool :=
  match s with
  | EmptyString => false
  | String a rest => (Ascii.eqb a c || has_char c rest)%bool
  end.

Definition is_discover (e : Event) : bool :=
  match e with EvDiscover _ => true | _ => false end.

Definition is_grant (e : Event) : bool :=
  match e with EvGrant _ _ _ _ => true | _ => false end.

(** The envelopes handed to a wire, in order. *)
Fixpoint dispatched_data (tr : list Event) : list RequestData :=
  match tr with
  | [] => []
  | EvAxiosPost _ d _ :: rest => d :: dispatched_data rest
  | EvGrpcIngest _ d _ :: rest => d :: dispatched_data rest
  | _ :: rest => dispatched_data rest
  end.

(** Where each delivery went: the URL of a POST, the address of a gRPC
    call. *)
Inductive Destination : Type :=
| HttpPost (url : string)
| GrpcCall (address : string).

Fixpoint destinations (tr : list Event) : list Destination :=
  match tr with
  | [] => []
  | EvAxiosPost url _ _ :: rest => HttpPost url :: destinations rest
  | EvGrpcIngest address _ _ :: rest => GrpcCall address :: destinations rest
  | _ :: rest => destinations rest
  end.

(** The token cache holds no token or a non-empty one. *)
Definition cache_ok (tc : TokenCache) : bool :=
  match accessToken tc with
  | Some tok => str_truthy tok
  | None => true
  end.

(** The same object with other own properties. *)
Definition with_props (o : JsObject) (l : list (string * JsVal)) : JsObject :=
  mkObject l (inherited o).

(** [a || b || 'literal'] *)
Definition resolve_setting (a b : option string) (d : string) : string :=
  js_or_default (js_or a b) d.

(** The pieces of the middleware, by generation. *)
Definition call_next_of (g : Generation) : NextArg -> M unit :=
  match g with
  | Current => call_if_function
  | Older => Legacy.call_next
  end.

Definition capture_request_of (g : Generation)
  : Runtime -> RequestView -> JsVal -> M RequestData :=
  match g with
  | Current => capture_request
  | Older => Legacy.capture_request
  end.

Definition dispatch_of (g : Generation) (rt : Runtime) (config : Config)
           (env : ProcessEnv) : RequestData -> string -> NextArg -> M unit :=
  match g with
  | Current => dispatch (select_transport rt config env)
                        (transportType_of config env)
  | Older => Legacy.dispatch rt
               (resolve_setting (ingestGatewayUrl config) (FRKR_INGEST_URL env)
                                "http://localhost:8082")
  end.

(** Where a generation delivers to. *)
Definition destination_of (g : Generation) (config : Config) (env : ProcessEnv)
  : Destination :=
  match g with
  | Current =>
      if String.eqb (transportType_of config env) "grpc"
      then GrpcCall (GrpcTransport.address_of config env)
      else HttpPost (HttpTransport.ingestGatewayUrl_of config env ++ "/ingest")
  | Older =>
      HttpPost (resolve_setting (ingestGatewayUrl config) (FRKR_INGEST_URL env)
                                "http://localhost:8082" ++ "/ingest")
  end.

Definition not_console_error (e : Event) : bool := negb (is_console_error e).


(** A runtime whose serialiser rejects every body. *)
Definition unserialisable_runtime : Runtime :=
  mkRuntime (fun n => 1700000000000 + Z.of_nat n)%Z (fun _ => "k3j9x0q1z")
    (fun _ => Thrown (mkError "Converting circular structure to JSON"))
    (fun _ => Normal [])
    (fun _ url => Normal (IssuerHandle url))
    (fun _ _ _ _ _ => Normal (mkTokenSet (Some "tok") (Some 3600%Z)))
    (fun _ _ => Response 200) (fun _ _ => None).

(** A runtime whose URL parser rejects every URL. *)
Definition unparsable_runtime : Runtime :=
  mkRuntime (fun n => 1700000000000 + Z.of_nat n)%Z (fun _ => "k3j9x0q1z")
    (fun _ => Normal "{}")
    (fun _ => Thrown (mkError "Invalid URL"))
    (fun _ url => Normal (IssuerHandle url))
    (fun _ _ _ _ _ => Normal (mkTokenSet (Some "tok") (Some 3600%Z)))
    (fun _ _ => Response 200) (fun _ _ => None).

(** A provider that is reachable but grants nothing. *)
Definition tokenless_runtime : Runtime :=
  sample_runtime (mkTokenSet None (Some 3600%Z)) 200.

(* ================================================================= *)
(** * Properties *)

(** ** Strings *)

Lemma ends_with_app (suffix p : string) : ends_with suffix (p ++ suffix) = true.
Proof.
  induction p as [|a p IH]; simpl.
  - destruct suffix; simpl.
    + reflexivity.
    + rewrite Ascii.eqb_refl, String.eqb_refl. reflexivity.
  - rewrite IH. apply orb_true_r.
Qed.

Lemma ends_with_inv (suffix s : string) :
  ends_with suffix s = true -> exists p, s = p ++ suffix.
Proof.
  induction s as [|a s IH]; intros H; cbn [ends_with] in H;
    apply orb_true_iff in H; destruct H as [H|H].
  - apply String.eqb_eq in H. subst. now exists "".
  - discriminate.
  - apply String.eqb_eq in H. subst. now exists "".
  - destruct (IH H) as [p ->]. now exists (String a p).
Qed.

Lemma string_length_app (s t : string) :
  String.length (s ++ t) = String.length s + String.length t.
Proof. induction s; simpl; congruence. Qed.

Lemma slice_0_minus2_app (p : string) (a b : ascii) :
  slice_0_minus2 (p ++ String a (String b "")) = p.
Proof.
  unfold slice_0_minus2. induction p as [|c p IH].
  - reflexivity.
  - simpl String.append. simpl String.length.
    rewrite string_length_app in *. simpl String.length in *.
    replace (S (String.length p + 2) - 2) with (S (String.length p + 2 - 2)) by lia.
    simpl. now rewrite IH.
Qed.

(** A wildcard pattern [prefix/*] matches exactly the prefix itself and
    the paths below it. *)
Lemma prefix_matches_spec (p prefix : string) :
  prefix_matches p (prefix ++ "/*")
  = (String.eqb p prefix || starts_with (prefix ++ "/") p)%bool.
Proof. unfold prefix_matches. now rewrite slice_0_minus2_app. Qed.

Lemma parse_digits_wildcard (p : string) (acc : N) :
  parse_digits acc (p ++ "/*") = None.
Proof.
  revert acc. induction p as [|a p IH]; intros acc; simpl.
  - reflexivity.
  - destruct (digit_of a); [apply IH | reflexivity].
Qed.

(** No array index is a wildcard pattern. *)
Lemma array_index_not_wildcard (key : string) :
  ends_with "/*" key = true -> array_index key = None.
Proof.
  intros H. destruct (ends_with_inv _ _ H) as [p ->].
  unfold array_index. destruct (p ++ "/*") eqn:E; [reflexivity|].
  rewrite <- E, parse_digits_wildcard.
  now destruct (_ && _)%bool.
Qed.

(** ** Base64 *)

Lemma base64_digit_value (n : N) :
  (n < 64)%N ->
  base64_value (base64_digit n) = Some n
  /\ Ascii.eqb (base64_digit n) "=" = false.
Proof.
  intros H. destruct n as [|p]; [split; reflexivity|].
  do 6 (destruct p as [p|p|]; try (split; reflexivity)); exfalso; lia.
Qed.

Lemma N_of_ascii_bound (a : ascii) : (N_of_ascii a < 256)%N.
Proof. destruct a as [[] [] [] [] [] [] [] []]; reflexivity. Qed.

Lemma sextets (x y z : N) :
  (x < 256 -> y < 256 -> z < 256 ->
   x / 4 < 64 /\ (x mod 4) * 16 + y / 16 < 64
   /\ (y mod 16) * 4 + z / 64 < 64 /\ z mod 64 < 64
   /\ (x / 4) * 4 + ((x mod 4) * 16 + y / 16) / 16 = x
   /\ (((x mod 4) * 16 + y / 16) mod 16) * 16 + ((y mod 16) * 4 + z / 64) / 4 = y
   /\ (((y mod 16) * 4 + z / 64) mod 4) * 64 + z mod 64 = z)%N.
Proof.
  intros Hx Hy Hz.
  repeat split; zify; Z.to_euclidean_division_equations; lia.
Qed.

Ltac div_lia := zify; Z.to_euclidean_division_equations; lia.

Lemma base64_decode_group (d1 d2 d3 d4 : N) (rest : string) :
  (d1 < 64 -> d2 < 64 -> d3 < 64 -> d4 < 64 ->
   base64_decode
     (String (base64_digit d1) (String (base64_digit d2)
        (String (base64_digit d3) (String (base64_digit d4) rest))))
   = match base64_decode rest with
     | Some tail =>
         Some (String (ascii_of_N (d1 * 4 + d2 / 16))
                 (String (ascii_of_N ((d2 mod 16) * 16 + d3 / 4))
                    (String (ascii_of_N ((d3 mod 4) * 64 + d4)) tail)))
     | None => None
     end)%N.
Proof.
  intros H1 H2 H3 H4. cbn [base64_decode].
  destruct (base64_digit_value d1 H1) as [-> _].
  destruct (base64_digit_value d2 H2) as [-> _].
  destruct (base64_digit_value d3 H3) as [-> ->].
  destruct (base64_digit_value d4 H4) as [-> ->].
  reflexivity.
Qed.

Lemma base64_decode_pad1 (d1 d2 d3 : N) :
  (d1 < 64 -> d2 < 64 -> d3 < 64 ->
   base64_decode
     (String (base64_digit d1) (String (base64_digit d2)
        (String (base64_digit d3) "=")))
   = Some (String (ascii_of_N (d1 * 4 + d2 / 16))
             (String (ascii_of_N ((d2 mod 16) * 16 + d3 / 4)) "")))%N.
Proof.
  intros H1 H2 H3. cbn [base64_decode].
  destruct (base64_digit_value d1 H1) as [-> _].
  destruct (base64_digit_value d2 H2) as [-> _].
  destruct (base64_digit_value d3 H3) as [-> ->].
  reflexivity.
Qed.

Lemma base64_decode_pad2 (d1 d2 : N) :
  (d1 < 64 -> d2 < 64 ->
   base64_decode
     (String (base64_digit d1) (String (base64_digit d2) "=="))
   = Some (String (ascii_of_N (d1 * 4 + d2 / 16)) ""))%N.
Proof.
  intros H1 H2. cbn [base64_decode].
  destruct (base64_digit_value d1 H1) as [-> _].
  destruct (base64_digit_value d2 H2) as [-> _].
  reflexivity.
Qed.

Ltac restore_byte a :=
  match goal with
  | |- context [ascii_of_N ?e] =>
      lazymatch e with
      | N_of_ascii _ => fail
      | _ => replace e with (N_of_ascii a) by div_lia
      end
  end.

Lemma base64_roundtrip_upto (n : nat) :
  forall s, String.length s <= n -> base64_decode (base64 s) = Some s.
Proof.
  induction n as [|n IH]; intros s Hlen.
  - destruct s; [reflexivity | simpl in Hlen; lia].
  - destruct s as [|a [|b [|c rest]]].
    + reflexivity.
    + pose proof (N_of_ascii_bound a) as Ha.
      cbn [base64]. cbv zeta.
      rewrite base64_decode_pad2; [|div_lia|div_lia].
      restore_byte a. now rewrite !ascii_N_embedding.
    + pose proof (N_of_ascii_bound a) as Ha.
      pose proof (N_of_ascii_bound b) as Hb.
      cbn [base64]. cbv zeta.
      rewrite base64_decode_pad1; [|div_lia|div_lia|div_lia].
      restore_byte a. restore_byte b. now rewrite !ascii_N_embedding.
    + pose proof (N_of_ascii_bound a) as Ha.
      pose proof (N_of_ascii_bound b) as Hb.
      pose proof (N_of_ascii_bound c) as Hc.
      cbn [base64]. cbv zeta.
      rewrite base64_decode_group; [|div_lia|div_lia|div_lia|div_lia].
      rewrite IH by (simpl in Hlen; lia).
      restore_byte a. restore_byte b. restore_byte c.
      now rewrite !ascii_N_embedding.
Qed.

(** Decoding what the encoder produced gives the bytes back. *)
Lemma base64_roundtrip (s : string) : base64_decode (base64 s) = Some s.
Proof. apply (base64_roundtrip_upto (String.length s)). lia. Qed.

(** Distinct credentials never share a header. *)
Lemma basic_auth_header_injective (u1 p1 u2 p2 : string) :
  basic_auth_header u1 p1 = basic_auth_header u2 p2 ->
  u1 ++ ":" ++ p1 = u2 ++ ":" ++ p2.
Proof.
  unfold basic_auth_header. intros H.
  assert (E : base64 (u1 ++ ":" ++ p1) = base64 (u2 ++ ":" ++ p2)).
  { simpl in H. now inversion H. }
  apply (f_equal base64_decode) in E.
  rewrite !base64_roundtrip in E. now inversion E.
Qed.

(** ** Objects *)

Lemma own_lookup_In (key : string) (v : JsVal) (l : list (string * JsVal)) :
  NoDup (map fst l) -> In (key, v) l -> own_lookup key l = Some v.
Proof.
  induction l as [|[k w] l IH]; simpl; intros ND HIn; [contradiction|].
  inversion ND as [|? ? Hnotin ND']; subst.
  destruct HIn as [Heq|HIn].
  - inversion Heq; subst. now rewrite String.eqb_refl.
  - destruct (String.eqb k key) eqn:E.
    + apply String.eqb_eq in E; subst.
      exfalso. apply Hnotin. now apply (in_map fst _ (key, v)).
    + now apply IH.
Qed.

Lemma own_lookup_absent (key : string) (l : list (string * JsVal)) :
  (forall v, ~ In (key, v) l) -> own_lookup key l = None.
Proof.
  induction l as [|[k w] l IH]; simpl; intros H; [reflexivity|].
  destruct (String.eqb k key) eqn:E.
  - apply String.eqb_eq in E; subst. exfalso. apply (H w). now left.
  - apply IH. intros v Hv. apply (H v). now right.
Qed.

Lemma insert_index_Forall (P : N * (string * JsVal) -> Prop) n e l :
  P (n, e) -> Forall P l -> Forall P (insert_index n e l).
Proof.
  intros Hn. induction 1 as [|[m e'] l Hm Hl IH]; simpl.
  - now repeat constructor.
  - destruct (N.leb n m); repeat constructor; auto.
Qed.

Lemma index_entries_keys (l : list (string * JsVal)) :
  Forall (fun ne => array_index (fst (snd ne)) <> None) (index_entries l).
Proof.
  induction l as [|e l IH]; simpl; [constructor|].
  destruct (array_index (fst e)) eqn:E; [|exact IH].
  apply insert_index_Forall; [|exact IH]. simpl. congruence.
Qed.

(** A path that begins with "/" names no member of [Object.prototype]:
    on an object literal it is found among the own properties or not at
    all. *)
Lemma Object_prototype_slash (p : string) :
  starts_with "/" p = true -> Object_prototype p = JUndefined.
Proof.
  destruct p as [|a p]; [discriminate|]. intros H.
  cbn [starts_with] in H. apply andb_true_iff in H. destruct H as [H _].
  apply Ascii.eqb_eq in H. subst a. reflexivity.
Qed.

(** ** The prefix scan *)

(** Entries that are not wildcard patterns are passed over. *)
Lemma scan_prefixes_skip (p : string) (l1 l2 : list (string * JsVal)) :
  Forall (fun e => ends_with "/*" (fst e) = false) l1 ->
  scan_prefixes p (l1 ++ l2) = scan_prefixes p l2.
Proof.
  induction 1 as [|[k v] l1 Hk Hl IH]; simpl; [reflexivity|].
  simpl in Hk. rewrite Hk. simpl. rewrite IH. now destruct (_ || _)%bool.
Qed.

Lemma scan_prefixes_filter (p : string) (f : string * JsVal -> bool)
      (l : list (string * JsVal)) :
  (forall e, f e = false -> ends_with "/*" (fst e) = false) ->
  scan_prefixes p (filter f l) = scan_prefixes p l.
Proof.
  intros Hf. induction l as [|[k v] l IH]; simpl; [reflexivity|].
  destruct (f (k, v)) eqn:E; simpl.
  - now rewrite IH.
  - pose proof (Hf _ E) as W. simpl in W.
    rewrite W. simpl. rewrite IH. now destruct (_ || _)%bool.
Qed.

(** The loop sees the wildcard patterns in the order in which the
    configuration declares them: moving array-index keys to the front
    does not change what it returns. *)
Lemma scan_prefixes_declared_order (p : string) (o : JsObject) :
  scan_prefixes p (Object_entries o) = scan_prefixes p (props o).
Proof.
  unfold Object_entries, named_entries.
  rewrite scan_prefixes_skip.
  - apply scan_prefixes_filter. intros [k v]; simpl.
    destruct (array_index k) eqn:E; [intros _|discriminate].
    destruct (ends_with "/*" k) eqn:W; [|reflexivity].
    apply array_index_not_wildcard in W. congruence.
  - apply Forall_map.
    eapply Forall_impl; [|apply index_entries_keys].
    intros [n [k v]]; simpl. intros Hk.
    destruct (ends_with "/*" k) eqn:W; [|reflexivity].
    apply array_index_not_wildcard in W. contradiction.
Qed.

(** The first wildcard entry that matches, in declared order, wins. *)
Lemma scan_prefixes_first (p prefix : string) (sid : JsVal)
      (before after : list (string * JsVal)) :
  prefix ++ "/*" <> p ->
  prefix_matches p (prefix ++ "/*") = true ->
  (forall k v, In (k, v) before ->
               ends_with "/*" k = true -> prefix_matches p k = false) ->
  scan_prefixes p (before ++ (prefix ++ "/*", sid) :: after) = Some sid.
Proof.
  intros Hne Hm. induction before as [|[k v] before IH]; intros Hb; simpl.
  - assert (String.eqb (prefix ++ "/*") "*" = false) as ->.
    { apply String.eqb_neq. intros E.
      apply (f_equal String.length) in E. rewrite string_length_app in E.
      simpl in E. lia. }
    apply String.eqb_neq in Hne. rewrite Hne. simpl.
    now rewrite ends_with_app, Hm.
  - rewrite IH by (intros; eapply Hb; [right|]; eassumption).
    destruct (_ || _)%bool; [reflexivity|].
    destruct (ends_with "/*" k) eqn:W; [|reflexivity].
    now rewrite (Hb k v (or_introl eq_refl) W).
Qed.

(** ** Stream resolver *)

Lemma streamIdConfig_function config env resolve :
  streamId config = SidFunction resolve ->
  streamIdConfig config env = SidFunction resolve.
Proof. unfold streamIdConfig. now intros ->. Qed.

Lemma streamIdConfig_object config env o :
  streamId config = SidObject o -> streamIdConfig config env = SidObject o.
Proof. unfold streamIdConfig. now intros ->. Qed.

(** C4.  When [config.streamId] is a function, the resolver returns what
    that function returns for the request, whatever it is ([null]
    included) and whatever [FRKR_STREAM_ID] holds: no pattern-map or
    single-string logic takes part. *)
Theorem getStreamId_dynamic :
  forall (resolve : RequestView -> JsVal) (config : Config)
         (env : ProcessEnv) (req : RequestView),
    streamId config = SidFunction resolve ->
    getStreamId config env req = resolve req.
Proof.
  intros resolve config env req H. unfold getStreamId.
  now rewrite (streamIdConfig_function _ env _ H).
Qed.

Lemma getStreamId_dynamic_witness :
  let config := with_streamId (SidFunction (fun _ => JNull)) in
  let env := mkEnv (Some "from-env") None None None None None None in
  streamId config = SidFunction (fun _ => JNull)
  /\ getStreamId config env (express_request "/api/users") = JNull.
Proof.
  split; [reflexivity|].
  apply (getStreamId_dynamic (fun _ => JNull)). reflexivity.
Defined.

(** C2.  In a pattern map, an entry whose pattern is the normalised path
    itself decides the stream, wherever it stands among the entries and
    whatever wildcard or catch-all entries surround it.  (The entry
    carries a stream id, that is, its value is not [undefined].) *)
Theorem getStreamId_exact_match :
  forall (config : Config) (env : ProcessEnv) (o : JsObject)
         (req : RequestView) (sid : JsVal),
    streamId config = SidObject o ->
    wf_object o ->
    In (normalizePath req, sid) (props o) ->
    sid <> JUndefined ->
    getStreamId config env req = sid.
Proof.
  intros config env o req sid Hc Hwf HIn Hsid. unfold getStreamId.
  rewrite (streamIdConfig_object _ env _ Hc). cbv zeta.
  unfold obj_get. rewrite (own_lookup_In _ _ _ Hwf HIn).
  destruct sid; try reflexivity. contradiction.
Qed.

Lemma getStreamId_exact_match_witness :
  let config := with_streamId (SidObject order_routes) in
  let req := express_request "/api/orders" in
  wf_object order_routes
  /\ In (normalizePath req, JStr "orders-stream") (props order_routes)
  /\ getStreamId config empty_env req = JStr "orders-stream".
Proof.
  assert (Hwf : wf_object order_routes).
  { unfold wf_object; simpl.
    repeat constructor; simpl; intuition discriminate. }
  assert (HIn : In (normalizePath (express_request "/api/orders"),
                    JStr "orders-stream") (props order_routes)).
  { simpl. right; right; left. reflexivity. }
  split; [exact Hwf|]. split; [exact HIn|].
  apply (getStreamId_exact_match (with_streamId (SidObject order_routes))
           empty_env order_routes (express_request "/api/orders")
           (JStr "orders-stream") eq_refl Hwf HIn).
  discriminate.
Defined.

(** C3.  When no entry's pattern is the normalised path (and the path
    names nothing the map inherits), the entries are tried in declared
    order, and the first pattern [prefix/*] whose prefix is the path or
    is followed by "/" at the start of the path gives the stream id. *)
Theorem getStreamId_first_prefix_match :
  forall (config : Config) (env : ProcessEnv) (o : JsObject)
         (req : RequestView) (before after : list (string * JsVal))
         (prefix : string) (sid : JsVal),
    streamId config = SidObject o ->
    (forall v, ~ In (normalizePath req, v) (props o)) ->
    inherited o (normalizePath req) = JUndefined ->
    props o = (before ++ ((prefix ++ "/*")%string, sid) :: after)%list ->
    (normalizePath req = prefix
     \/ starts_with (prefix ++ "/") (normalizePath req) = true) ->
    (forall p v, In (p ++ "/*", v) before ->
                 normalizePath req <> p
                 /\ starts_with (p ++ "/") (normalizePath req) = false) ->
    getStreamId config env req = sid.
Proof.
  intros config env o req before after prefix sid Hc Hno Hinh Hprops Hm Hb.
  unfold getStreamId. rewrite (streamIdConfig_object _ env _ Hc). cbv zeta.
  assert (Hget : obj_get o (normalizePath req) = JUndefined).
  { unfold obj_get. now rewrite (own_lookup_absent _ _ Hno). }
  rewrite Hget. simpl negb. cbv iota.
  rewrite scan_prefixes_declared_order, Hprops.
  rewrite scan_prefixes_first; [reflexivity| | |].
  - intros E. apply (Hno sid). rewrite Hprops, <- E.
    apply in_or_app. right. now left.
  - rewrite prefix_matches_spec. apply orb_true_iff.
    destruct Hm as [Hm|Hm]; [left|right; exact Hm].
    rewrite Hm. apply String.eqb_refl.
  - intros k v HIn W. destruct (ends_with_inv _ _ W) as [p ->].
    rewrite prefix_matches_spec. destruct (Hb p v HIn) as [Hne Hs].
    rewrite Hs. apply String.eqb_neq in Hne. now rewrite Hne.
Qed.

(** The prefix-equality case: "/api" is routed by "/api/*". *)
Lemma getStreamId_first_prefix_match_witness :
  let config := with_streamId (SidObject api_routes) in
  let req := express_request "/api" in
  (forall v, ~ In (normalizePath req, v) (props api_routes))
  /\ normalizePath req = "/api"
  /\ getStreamId config empty_env req = JStr "api".
Proof.
  assert (Hno : forall v, ~ In (normalizePath (express_request "/api"), v)
                              (props api_routes)).
  { intros v H. simpl in H.
    destruct H as [H|[H|[H|[]]]]; discriminate H. }
  split; [exact Hno|]. split; [reflexivity|].
  apply (getStreamId_first_prefix_match
           (with_streamId (SidObject api_routes)) empty_env api_routes
           (express_request "/api")
           [("/api/v1/*", JStr "v1")] [("*", JStr "default")] "/api"
           (JStr "api") eq_refl Hno eq_refl eq_refl (or_introl eq_refl)).
  intros p v H. simpl in H. destruct H as [H|[]].
  assert (p = "/api/v1") as ->.
  { inversion H as [[E]].
    change "/api/v1/*" with ("/api/v1" ++ "/*") in E.
    revert E. generalize "/api/v1". clear.
    induction p as [|a p IH]; intros [|b q] E; simpl in E;
      try reflexivity; try discriminate E.
    - inversion E as [[E1 E2]]. destruct q as [|? [|? [|? ?]]]; discriminate E2.
    - inversion E as [[E1 E2]]. destruct p as [|? [|? [|? ?]]]; discriminate E2.
    - inversion E as [[E1 E2]]. f_equal. now apply IH. }
  split; [discriminate|reflexivity].
Defined.

(** ** Running the monad *)

Lemma bind_normal {A B} (m : M A) (k : A -> M B) (w w' : World) (a : A) :
  m w = (Normal a, w') -> bind m k w = k a w'.
Proof. unfold bind. now intros ->. Qed.

Lemma bind_thrown {A B} (m : M A) (k : A -> M B) (w w' : World) (e : Error) :
  m w = (Thrown e, w') -> bind m k w = (Thrown e, w').
Proof. unfold bind. now intros ->. Qed.

Lemma capture_body_ok (rt : Runtime) (req : RequestView) (w : World) :
  body_serialises rt req = true ->
  exists s, capture_body rt req w = (Normal s, w).
Proof.
  unfold body_serialises, capture_body. intros H.
  destruct (truthy (req_body req)); simpl in H.
  - unfold lift. destruct (JSON_stringify rt (req_body req)) as [s|e];
      [now exists s | discriminate].
  - now exists "".
Qed.

Lemma capture_ok_body rt req :
  capture_ok rt req = true -> body_serialises rt req = true.
Proof. unfold capture_ok. intros H. now apply andb_true_iff in H. Qed.

(** ** Falsy stream ids *)

(** With a falsy stream id the middleware does nothing but call [next]. *)
Lemma mirror_falsy_run (g : Generation) (rt : Runtime) (config : Config)
      (env : ProcessEnv) (req : RequestView) (w : World) :
  truthy (getStreamId config env req) = false ->
  mirror_of g rt config env req NextFunction w
  = (Normal tt, record_event EvNext w).
Proof.
  intros H. destruct g; unfold mirror_of, mirror, Legacy.mirror; cbv zeta;
    rewrite H; reflexivity.
Qed.

(** C10.  Whenever the resolved stream id is falsy, whatever value it
    is, the middleware does nothing but call [next]: no envelope, no
    credential, no delivery, exactly as for a configuration that resolves
    to [null]. *)
Theorem mirror_skips_falsy_stream :
  forall (g : Generation) (rt : Runtime) (config : Config) (env : ProcessEnv)
         (req : RequestView) (w : World),
    truthy (getStreamId config env req) = false ->
    let skipped :=
      (Normal tt,
       mkWorld (tokenCache w) (issuerCache w) (steps w)
               (trace w ++ [EvNext])%list) in
    let unrouted := set_streamId (SidFunction (fun _ => JNull)) config in
    mirror_of g rt config env req NextFunction w = skipped
    /\ mirror_of g rt unrouted env req NextFunction w = skipped.
Proof.
  intros g rt config env req w H. cbv zeta. split.
  - now apply mirror_falsy_run.
  - now apply mirror_falsy_run.
Qed.

Lemma mirror_skips_falsy_stream_witness :
  let by_map := with_streamId (SidObject (literal [("/health", JStr "")])) in
  let by_function := with_streamId (SidFunction (fun _ => JStr "")) in
  let rt := sample_runtime (mkTokenSet None None) 200 in
  let req := express_request "/health" in
  getStreamId by_map empty_env req = JStr ""
  /\ getStreamId by_function empty_env req = JStr ""
  /\ mirror rt by_map empty_env req NextFunction initial_world
     = (Normal tt, mkWorld (mkTokenCache None 0) None 0 [EvNext])
  /\ mirror rt by_function empty_env req NextFunction initial_world
     = (Normal tt, mkWorld (mkTokenCache None 0) None 0 [EvNext]).
Proof.
  cbv zeta. split; [reflexivity|]. split; [reflexivity|]. split.
  - apply (mirror_skips_falsy_stream Current
             (sample_runtime (mkTokenSet None None) 200)
             (with_streamId (SidObject (literal [("/health", JStr "")])))
             empty_env (express_request "/health") initial_world).
    reflexivity.
  - apply (mirror_skips_falsy_stream Current
             (sample_runtime (mkTokenSet None None) 200)
             (with_streamId (SidFunction (fun _ => JStr "")))
             empty_env (express_request "/health") initial_world).
    reflexivity.
Defined.

(** ** HTTP transport *)

Lemma axios_rejects_bad_status (status : Z) :
  (status < 200 \/ 300 <= status)%Z ->
  axios_settles (Response status)
  = Thrown (mkError ("Request failed with status code " ++ Z_to_string status)).
Proof.
  intros H. unfold axios_settles.
  destruct (200 <=? status)%Z eqn:E1; destruct (status <? 300)%Z eqn:E2;
    simpl; try reflexivity.
  apply Z.leb_le in E1. apply Z.ltb_lt in E2. lia.
Qed.

(** C8.  [HttpTransport.send] issues the POST and returns a promise that
    is always fulfilled: when the POST fails (connection error, status
    outside 200..299) the failure is written to the console inside
    [send], and nothing is thrown or rejected to the caller. *)
Theorem HttpTransport_send_never_rejects :
  forall (rt : Runtime) (config : Config) (env : ProcessEnv)
         (requestData : RequestData) (authHeader : string) (w : World),
    let url := HttpTransport.ingestGatewayUrl_of config env ++ "/ingest" in
    exists p : Promise unit,
      send (HttpTransport.new rt config env) requestData authHeader w
      = (Normal p,
         mkWorld (tokenCache w) (issuerCache w) (S (steps w))
                 (trace w ++ [EvAxiosPost url requestData authHeader])%list)
      /\ forall w2 : World,
           settle p w2
           = (Normal tt,
              mkWorld (tokenCache w2) (issuerCache w2) (steps w2)
                      (trace w2 ++ http_failure_log (network rt (steps w) url))%list).
Proof.
  intros rt config env requestData authHeader w. cbv zeta.
  eexists. split.
  - reflexivity.
  - intros w2. unfold http_failure_log. simpl.
    unfold try_catch, lift.
    destruct (axios_settles _) as [[]|err]; simpl.
    + rewrite app_nil_r. destruct w2; reflexivity.
    + reflexivity.
Qed.

(** ** Basic-auth fallback *)

Lemma build_auth_header_basic
      (getToken : Config -> M string) (config : Config)
      (cid csecret : option string) (user pass : string) (w : World) :
  (opt_truthy cid && opt_truthy csecret)%bool = false ->
  build_auth_header getToken config cid csecret user pass w
  = (Normal (Some ("Basic " ++ base64 (user ++ ":" ++ pass))), w).
Proof. intros H. unfold build_auth_header, try_catch. now rewrite H. Qed.

(** ** Credential provider *)

Ltac simpl_world :=
  cbn [fst snd tokenCache issuerCache steps trace accessToken expiresAt].

Ltac run_monad :=
  cbv beta iota zeta delta
      [try_catch bind ret throw lift await await_call attempt emit
       record_event tick date_now get_tokenCache set_tokenCache get_issuerCache
       set_issuerCache console_error];
  simpl_world.

Ltac run_token :=
  unfold getAccessToken, Legacy.getAccessToken, cached_token, fetch_token;
  run_monad.

Ltac split_cases :=
  repeat match goal with
         | |- context [match ?x with _ => _ end] =>
             lazymatch x with
             | context [match _ with _ => _ end] => fail
             | _ => destruct x eqn:?
             end;
             cbn [fst snd tokenCache issuerCache steps trace accessToken expiresAt]
         end.

Lemma getAccessToken_events (g : Generation) (rt : Runtime) (config : Config)
      (w : World) :
  exists tr,
    trace (snd (getAccessToken_of g rt config w)) = (trace w ++ tr)%list
    /\ forallb is_token_event tr = true.
Proof.
  destruct g; unfold getAccessToken_of; run_token; split_cases;
    repeat rewrite <- app_assoc;
    first [ eexists; split; [reflexivity|reflexivity]
          | exists []; split; [now rewrite app_nil_r | reflexivity] ].
Qed.

(** A token that is cached and more than a minute from expiry is
    returned at once: one clock reading, no event, no state change. *)
Lemma getAccessToken_cache_hit
      (rt : Runtime) (config : Config) (w : World) (tok : string) :
  accessToken (tokenCache w) = Some tok ->
  str_truthy tok = true ->
  (Date_now rt (steps w) < expiresAt (tokenCache w) - 60000)%Z ->
  let w' := mkWorld (tokenCache w) (issuerCache w) (S (steps w)) (trace w) in
  getAccessToken rt config w = (Normal tok, w')
  /\ Legacy.getAccessToken rt config w = (Normal tok, w').
Proof.
  intros Htok Ht Hlt. apply Z.ltb_lt in Hlt.
  run_token. rewrite Htok. cbn [opt_truthy]. rewrite Ht.
  simpl_world. rewrite Hlt. split; reflexivity.
Qed.

(** A failed acquisition never writes the token cache. *)
Lemma getAccessToken_failure_keeps_cache
      (rt : Runtime) (config : Config) (w w' : World) (e : Error) :
  getAccessToken rt config w = (Thrown e, w') \/
  Legacy.getAccessToken rt config w = (Thrown e, w') ->
  tokenCache w' = tokenCache w.
Proof.
  intros [H|H]; revert H; run_token; split_cases; intros H;
    inversion H; subst; reflexivity.
Qed.

(** A failed acquisition was not answered from the cache. *)
Lemma getAccessToken_failure_was_miss
      (rt : Runtime) (config : Config) (w w' : World) (e : Error) :
  getAccessToken rt config w = (Thrown e, w') \/
  Legacy.getAccessToken rt config w = (Thrown e, w') ->
  opt_truthy (accessToken (tokenCache w)) = false
  \/ (expiresAt (tokenCache w) - 60000 <= Date_now rt (steps w))%Z.
Proof.
  intros H.
  destruct (opt_truthy (accessToken (tokenCache w))) eqn:Ht; [right|now left].
  destruct (Date_now rt (steps w) <? expiresAt (tokenCache w) - 60000)%Z eqn:Hlt.
  - exfalso. destruct (accessToken (tokenCache w)) as [tok|] eqn:Htok;
      [|discriminate].
    apply Z.ltb_lt in Hlt.
    destruct (getAccessToken_cache_hit rt config w tok Htok Ht Hlt) as [H1 H2].
    destruct H as [H|H]; congruence.
  - apply Z.ltb_ge in Hlt. exact Hlt.
Qed.

(** Without a valid cached token the cache lookup reports a miss. *)
Lemma cached_token_miss (rt : Runtime) (w : World) :
  opt_truthy (accessToken (tokenCache w)) = false
  \/ (expiresAt (tokenCache w) - 60000 <= Date_now rt (steps w))%Z ->
  fst (cached_token rt w) = Normal None.
Proof.
  intros H. unfold cached_token. run_monad.
  destruct (opt_truthy (accessToken (tokenCache w))) eqn:Ht; [|reflexivity].
  destruct H as [H|H]; [discriminate|].
  apply Z.ltb_ge in H. now rewrite H.
Qed.

(** The current entry point refuses to guess an issuer. *)
Lemma getAccessToken_requires_issuer
      (rt : Runtime) (config : Config) (w : World) :
  fst (cached_token rt w) = Normal None ->
  opt_truthy (issuer config) = false ->
  opt_truthy (authDomain config) = false ->
  exists w',
    getAccessToken rt config w
    = (Thrown (mkError "OIDC issuer or authDomain is required"), w')
    /\ tokenCache w' = tokenCache w
    /\ issuerCache w' = issuerCache w
    /\ trace w'
       = (trace w ++
          [EvConsoleError
             "Failed to fetch access token: OIDC issuer or authDomain is required"])%list.
Proof.
  intros Hmiss Hi Hd. revert Hmiss.
  unfold getAccessToken, issuerUrl_of, js_or. rewrite Hi.
  assert (Hurl : match authDomain config with
                 | Some d => if str_truthy d then Some ("https://" ++ d) else None
                 | None => None
                 end = None).
  { destruct (authDomain config) as [d|]; [|reflexivity].
    simpl in Hd. now rewrite Hd. }
  rewrite Hurl. unfold cached_token. run_monad.
  split_cases; intros Hmiss; try discriminate Hmiss;
    eexists; repeat split; reflexivity.
Qed.

(** A successful refresh asks the provider, caches the granted token and
    computes the expiry from the clock as read when the cache is written
    (the reading that follows the grant). *)
Lemma getAccessToken_refresh
      (rt : Runtime) (config : Config) (w w' : World) (tok : string) :
  fst (cached_token rt w) = Normal None ->
  getAccessToken rt config w = (Normal tok, w') \/
  Legacy.getAccessToken rt config w = (Normal tok, w') ->
  exists iss ts k,
    issuerCache w' = Some iss
    /\ steps w' = S (S k)
    /\ client_grant rt k iss (clientId config) (clientSecret config)
                    (js_or_default (audience config) "https://api.frkr.io")
       = Normal ts
    /\ access_token ts = Some tok
    /\ tokenCache w'
       = mkTokenCache (Some tok) (Date_now rt (S k) + validity_ms ts)
    /\ List.length (idp_calls (trace w)) < List.length (idp_calls (trace w')).
Proof.
  intros Hmiss H. revert Hmiss.
  destruct H as [H|H]; revert H; unfold cached_token; run_token;
    split_cases; intros H Hmiss; try discriminate Hmiss;
    try match goal with
        | G : opt_truthy None = true |- _ => discriminate G
        end;
    inversion H; subst; clear H;
    match goal with
    | G : client_grant _ ?k ?i _ _ _ = Normal ?t |- _ =>
        exists i, t, k; simpl_world
    end;
    unfold validity_ms;
    repeat match goal with
           | G : expires_in _ = _ |- _ => rewrite G
           | G : negb (Z.eqb ?z 0) = _ |- _ =>
               destruct (Z.eqb z 0); try discriminate G; clear G
           end;
    (split; [first [reflexivity|assumption]|]); (split; [reflexivity|]);
    (split; [assumption|]); (split; [assumption|]); (split; [reflexivity|]);
    unfold idp_calls; rewrite !filter_app, !List.length_app; simpl; lia.
Qed.

(** ** Traces *)

Lemma count_next_app (a b : list Event) :
  count_next (a ++ b) = count_next a + count_next b.
Proof. unfold count_next. now rewrite filter_app, List.length_app. Qed.

Lemma authorizations_app (a b : list Event) :
  authorizations (a ++ b) = (authorizations a ++ authorizations b)%list.
Proof.
  induction a as [|e a IH]; [reflexivity|].
  destruct e; simpl; rewrite IH; reflexivity.
Qed.

Lemma console_errors_silent (logs : list Event) :
  forallb is_console_error logs = true ->
  count_next logs = 0 /\ authorizations logs = [] /\ idp_calls logs = []
  /\ dispatches logs = [].
Proof.
  induction logs as [|e logs IH]; [now repeat split|].
  simpl. intros H. apply andb_true_iff in H. destruct H as [He Hl].
  destruct (IH Hl) as (H1 & H2 & H3 & H4).
  destruct e; try discriminate He. now repeat split.
Qed.

Lemma token_events_silent (tr : list Event) :
  forallb is_token_event tr = true ->
  count_next tr = 0 /\ authorizations tr = [] /\ dispatches tr = [].
Proof.
  induction tr as [|e tr IH]; [now repeat split|].
  simpl. intros H. apply andb_true_iff in H. destruct H as [He Hl].
  destruct (IH Hl) as (H1 & H2 & H3).
  destruct e; try discriminate He; now repeat split.
Qed.


(** ** The pieces of the middleware *)

Lemma capture_request_ok (rt : Runtime) (req : RequestView) (sid : JsVal)
      (w : World) :
  capture_ok rt req = true ->
  exists rd,
    capture_request rt req sid w
    = (Normal rd,
       mkWorld (tokenCache w) (issuerCache w) (3 + steps w) (trace w))
    /\ stream_id rd = sid.
Proof.
  unfold capture_ok, body_serialises, capture_request, capture_body,
    fresh_request_id.
  run_monad. intros H.
  destruct (truthy (req_body req)); simpl in H;
    [destruct (JSON_stringify rt (req_body req)); simpl in H;
     [|discriminate H]|];
    (destruct (req_query req);
     [|destruct (URL_searchParams rt (req_url req)); [|discriminate H]]);
    eexists; split; reflexivity.
Qed.

Lemma Legacy_capture_request_ok (rt : Runtime) (req : RequestView)
      (sid : JsVal) (w : World) :
  body_serialises rt req = true ->
  exists rd,
    Legacy.capture_request rt req sid w
    = (Normal rd,
       mkWorld (tokenCache w) (issuerCache w) (3 + steps w) (trace w))
    /\ stream_id rd = sid.
Proof.
  unfold body_serialises, Legacy.capture_request, capture_body,
    fresh_request_id.
  run_monad. intros H.
  destruct (truthy (req_body req)); simpl in H;
    [destruct (JSON_stringify rt (req_body req)); simpl in H;
     [|discriminate H]|];
    eexists; split; reflexivity.
Qed.

(** With client credentials the header is a bearer token, and the
    middleware resumes on a later turn than the one it was entered in;
    a failed acquisition is caught. *)
Lemma build_auth_header_bearer
      (getToken : Config -> M string) (config : Config)
      (cid csecret : option string) (user pass : string) (w : World) :
  (opt_truthy cid && opt_truthy csecret)%bool = true ->
  build_auth_header getToken config cid csecret user pass w
  = match getToken (with_credentials config cid csecret) w with
    | (Normal token, w') =>
        (Normal (Some ("Bearer " ++ token)), record_event EvSuspend w')
    | (Thrown _, w') => (Normal None, record_event EvSuspend w')
    end.
Proof.
  intros H. unfold build_auth_header. rewrite H. run_monad.
  destruct (getToken (with_credentials config cid csecret) w) as [[tok|e] w'];
    reflexivity.
Qed.

(** Dispatch hands the envelope to the wire, calls [next] in the same
    turn, and only later learns how the delivery went. *)
Lemma dispatch_trace (rt : Runtime) (config : Config) (env : ProcessEnv)
      (rd : RequestData) (hdr : string) (w : World) :
  str_truthy hdr = true ->
  exists d logs,
    dispatch (select_transport rt config env) (transportType_of config env)
             rd hdr NextFunction w
    = (Normal tt,
       mkWorld (tokenCache w) (issuerCache w) (S (steps w))
               (trace w ++ d :: EvNext :: EvSuspend :: logs)%list)
    /\ is_dispatch d = true
    /\ authorizations [d] = [Some hdr]
    /\ forallb is_console_error logs = true.
Proof.
  intros Hh. unfold dispatch, select_transport.
  destruct (String.eqb (transportType_of config env) "grpc").
  - unfold GrpcTransport.new, GrpcTransport.send, send, detached,
      promise_catch, settle, call_if_function.
    rewrite Hh. run_monad.
    destruct (grpc_call rt (steps w) (GrpcTransport.address_of config env));
      simpl_world; rewrite <- !app_assoc; simpl;
      eexists; eexists; (split; [reflexivity|]); repeat split; reflexivity.
  - unfold HttpTransport.new, HttpTransport.send, send, detached,
      promise_catch, settle, call_if_function, axios_post.
    run_monad.
    destruct (axios_settles _) as [[]|err];
      simpl_world; rewrite <- !app_assoc; simpl;
      eexists; eexists; (split; [reflexivity|]); repeat split; reflexivity.
Qed.

Lemma Legacy_dispatch_trace (rt : Runtime) (gatewayUrl : string)
      (rd : RequestData) (hdr : string) (w : World) :
  exists d logs,
    Legacy.dispatch rt gatewayUrl rd hdr NextFunction w
    = (Normal tt,
       mkWorld (tokenCache w) (issuerCache w) (S (steps w))
               (trace w ++ d :: EvNext :: EvSuspend :: logs)%list)
    /\ is_dispatch d = true
    /\ authorizations [d] = [Some hdr]
    /\ forallb is_console_error logs = true.
Proof.
  unfold Legacy.dispatch, Legacy.call_next, detached, promise_catch, settle,
    axios_post.
  run_monad.
  destruct (axios_settles _) as [[]|err];
    simpl_world; rewrite <- !app_assoc; simpl;
    eexists; eexists; (split; [reflexivity|]); repeat split; reflexivity.
Qed.

(** ** Runs of the middleware *)

Lemma str_truthy_basic (x : string) : str_truthy ("Basic " ++ x) = true.
Proof. reflexivity. Qed.

Lemma str_truthy_bearer (x : string) : str_truthy ("Bearer " ++ x) = true.
Proof. reflexivity. Qed.

(** Basic auth: everything up to and including [next] happens in the
    turn in which the middleware was entered. *)
Lemma mirror_basic_run (rt : Runtime) (config : Config) (env : ProcessEnv)
      (req : RequestView) (tc : TokenCache) (ic : option Issuer) (n : nat) :
  uses_client_credentials config env = false ->
  truthy (getStreamId config env req) = true ->
  capture_ok rt req = true ->
  exists d logs,
    mirror rt config env req NextFunction (start tc ic n)
    = (Normal tt,
       mkWorld tc ic (4 + n) (d :: EvNext :: EvSuspend :: logs))
    /\ is_dispatch d = true
    /\ authorizations [d]
       = [Some (basic_auth_header (resolved_username config env)
                                  (resolved_password config env))]
    /\ forallb is_console_error logs = true.
Proof.
  intros Hcc Hsid Hcap. unfold mirror. cbv zeta. rewrite Hsid. cbn [negb].
  destruct (capture_request_ok rt req (getStreamId config env req)
              (start tc ic n) Hcap) as (rd & Hrd & _).
  cbn [start tokenCache issuerCache steps trace] in Hrd.
  rewrite (bind_normal (capture_request rt req (getStreamId config env req))
             _ (start tc ic n) _ _ Hrd).
  unfold uses_client_credentials in Hcc.
  unfold bind at 1. rewrite (build_auth_header_basic _ _ _ _ _ _ _ Hcc).
  destruct (dispatch_trace rt config env rd
              (basic_auth_header (resolved_username config env)
                                 (resolved_password config env))
              (mkWorld tc ic (3 + n) []) (str_truthy_basic _))
    as (d & logs & Hd & H1 & H2 & H3).
  exists d, logs. split; [exact Hd|]. repeat split; assumption.
Qed.

Lemma Legacy_mirror_basic_run (rt : Runtime) (config : Config)
      (env : ProcessEnv) (req : RequestView) (tc : TokenCache)
      (ic : option Issuer) (n : nat) :
  uses_client_credentials config env = false ->
  truthy (getStreamId config env req) = true ->
  body_serialises rt req = true ->
  exists d logs,
    Legacy.mirror rt config env req NextFunction (start tc ic n)
    = (Normal tt,
       mkWorld tc ic (4 + n) (d :: EvNext :: EvSuspend :: logs))
    /\ is_dispatch d = true
    /\ authorizations [d]
       = [Some (basic_auth_header (resolved_username config env)
                                  (resolved_password config env))]
    /\ forallb is_console_error logs = true.
Proof.
  intros Hcc Hsid Hcap. unfold Legacy.mirror. cbv zeta. rewrite Hsid.
  cbn [negb].
  destruct (Legacy_capture_request_ok rt req (getStreamId config env req)
              (start tc ic n) Hcap) as (rd & Hrd & _).
  cbn [start tokenCache issuerCache steps trace] in Hrd.
  rewrite (bind_normal
             (Legacy.capture_request rt req (getStreamId config env req))
             _ (start tc ic n) _ _ Hrd).
  unfold uses_client_credentials in Hcc.
  unfold bind at 1. rewrite (build_auth_header_basic _ _ _ _ _ _ _ Hcc).
  destruct (Legacy_dispatch_trace rt
              (js_or_default (js_or (ingestGatewayUrl config) (FRKR_INGEST_URL env))
                             "http://localhost:8082")
              rd (basic_auth_header (resolved_username config env)
                                    (resolved_password config env))
              (mkWorld tc ic (3 + n) []))
    as (d & logs & Hd & H1 & H2 & H3).
  exists d, logs. split; [exact Hd|]. repeat split; assumption.
Qed.

(** Client credentials: [next] is called once the token acquisition has
    settled, on a later turn; after a failure nothing is dispatched. *)
Lemma mirror_bearer_run (rt : Runtime) (config : Config) (env : ProcessEnv)
      (req : RequestView) (tc : TokenCache) (ic : option Issuer) (n : nat) :
  uses_client_credentials config env = true ->
  truthy (getStreamId config env req) = true ->
  capture_ok rt req = true ->
  match getAccessToken rt (token_config config env) (start tc ic (3 + n)) with
  | (Normal token, w') =>
      exists d logs,
        mirror rt config env req NextFunction (start tc ic n)
        = (Normal tt,
           mkWorld (tokenCache w') (issuerCache w') (S (steps w'))
                   (trace w' ++ EvSuspend :: d :: EvNext :: EvSuspend :: logs)%list)
        /\ is_dispatch d = true
        /\ authorizations [d] = [Some ("Bearer " ++ token)]
        /\ forallb is_console_error logs = true
  | (Thrown _, w') =>
      mirror rt config env req NextFunction (start tc ic n)
      = (Normal tt,
         mkWorld (tokenCache w') (issuerCache w') (steps w')
                 (trace w' ++ [EvSuspend; EvNext])%list)
  end.
Proof.
  intros Hcc Hsid Hcap.
  destruct (capture_request_ok rt req (getStreamId config env req)
              (start tc ic n) Hcap) as (rd & Hrd & _).
  cbn [start tokenCache issuerCache steps trace] in Hrd.
  unfold uses_client_credentials in Hcc.
  assert (Hrun : mirror rt config env req NextFunction (start tc ic n)
                 = match getAccessToken rt (token_config config env)
                                        (start tc ic (3 + n)) with
                   | (Normal token, w') =>
                       dispatch (select_transport rt config env)
                                (transportType_of config env) rd
                                ("Bearer " ++ token) NextFunction
                                (record_event EvSuspend w')
                   | (Thrown _, w') =>
                       call_if_function NextFunction
                                        (record_event EvSuspend w')
                   end).
  { unfold mirror. cbv zeta. rewrite Hsid. cbn [negb].
    rewrite (bind_normal (capture_request rt req (getStreamId config env req))
               _ (start tc ic n) _ _ Hrd).
    unfold bind at 1. rewrite (build_auth_header_bearer _ _ _ _ _ _ _ Hcc).
    fold (token_config config env).
    change (mkWorld tc ic (3 + n) []) with (start tc ic (3 + n)).
    now destruct (getAccessToken rt (token_config config env)
                                 (start tc ic (3 + n))) as [[token|e] w']. }
  rewrite Hrun. clear Hrun.
  destruct (getAccessToken rt (token_config config env) (start tc ic (3 + n)))
    as [[token|e] w'].
  - destruct (dispatch_trace rt config env rd ("Bearer " ++ token)
                (record_event EvSuspend w') (str_truthy_bearer token))
      as (d & logs & Hd & H1 & H2 & H3).
    exists d, logs. split; [|repeat split; assumption].
    etransitivity; [exact Hd|]. unfold record_event. simpl_world.
    now rewrite <- app_assoc.
  - unfold call_if_function, emit, record_event. simpl_world.
    now rewrite <- app_assoc.
Qed.

Lemma Legacy_mirror_bearer_run (rt : Runtime) (config : Config)
      (env : ProcessEnv) (req : RequestView) (tc : TokenCache)
      (ic : option Issuer) (n : nat) :
  uses_client_credentials config env = true ->
  truthy (getStreamId config env req) = true ->
  body_serialises rt req = true ->
  match Legacy.getAccessToken rt (token_config config env)
                              (start tc ic (3 + n)) with
  | (Normal token, w') =>
      exists d logs,
        Legacy.mirror rt config env req NextFunction (start tc ic n)
        = (Normal tt,
           mkWorld (tokenCache w') (issuerCache w') (S (steps w'))
                   (trace w' ++ EvSuspend :: d :: EvNext :: EvSuspend :: logs)%list)
        /\ is_dispatch d = true
        /\ authorizations [d] = [Some ("Bearer " ++ token)]
        /\ forallb is_console_error logs = true
  | (Thrown _, w') =>
      Legacy.mirror rt config env req NextFunction (start tc ic n)
      = (Normal tt,
         mkWorld (tokenCache w') (issuerCache w') (steps w')
                 (trace w' ++ [EvSuspend; EvNext])%list)
  end.
Proof.
  intros Hcc Hsid Hcap.
  destruct (Legacy_capture_request_ok rt req (getStreamId config env req)
              (start tc ic n) Hcap) as (rd & Hrd & _).
  cbn [start tokenCache issuerCache steps trace] in Hrd.
  unfold uses_client_credentials in Hcc.
  assert (Hrun : Legacy.mirror rt config env req NextFunction (start tc ic n)
                 = match Legacy.getAccessToken rt (token_config config env)
                                               (start tc ic (3 + n)) with
                   | (Normal token, w') =>
                       Legacy.dispatch rt
                         (js_or_default
                            (js_or (ingestGatewayUrl config) (FRKR_INGEST_URL env))
                            "http://localhost:8082")
                         rd ("Bearer " ++ token) NextFunction
                         (record_event EvSuspend w')
                   | (Thrown _, w') =>
                       Legacy.call_next NextFunction
                                        (record_event EvSuspend w')
                   end).
  { unfold Legacy.mirror. cbv zeta. rewrite Hsid. cbn [negb].
    rewrite (bind_normal
               (Legacy.capture_request rt req (getStreamId config env req))
               _ (start tc ic n) _ _ Hrd).
    unfold bind at 1. rewrite (build_auth_header_bearer _ _ _ _ _ _ _ Hcc).
    fold (token_config config env).
    change (mkWorld tc ic (3 + n) []) with (start tc ic (3 + n)).
    now destruct (Legacy.getAccessToken rt (token_config config env)
                                        (start tc ic (3 + n)))
      as [[token|e] w']. }
  rewrite Hrun. clear Hrun.
  destruct (Legacy.getAccessToken rt (token_config config env)
                                  (start tc ic (3 + n)))
    as [[token|e] w'].
  - destruct (Legacy_dispatch_trace rt
                (js_or_default (js_or (ingestGatewayUrl config) (FRKR_INGEST_URL env))
                               "http://localhost:8082")
                rd ("Bearer " ++ token) (record_event EvSuspend w'))
      as (d & logs & Hd & H1 & H2 & H3).
    exists d, logs. split; [|repeat split; assumption].
    etransitivity; [exact Hd|]. unfold record_event. simpl_world.
    now rewrite <- app_assoc.
  - unfold Legacy.call_next, emit, record_event. simpl_world.
    now rewrite <- app_assoc.
Qed.

Lemma mirror_run (g : Generation) (rt : Runtime) (config : Config)
      (env : ProcessEnv) (req : RequestView) (tc : TokenCache)
      (ic : option Issuer) (n : nat) :
  truthy (getStreamId config env req) = true ->
  capture_ok rt req = true ->
  if uses_client_credentials config env then
    match getAccessToken_of g rt (token_config config env)
                            (start tc ic (3 + n)) with
    | (Normal token, w') =>
        exists d logs,
          mirror_of g rt config env req NextFunction (start tc ic n)
          = (Normal tt,
             mkWorld (tokenCache w') (issuerCache w') (S (steps w'))
                     (trace w' ++ EvSuspend :: d :: EvNext :: EvSuspend :: logs)%list)
          /\ is_dispatch d = true
          /\ authorizations [d] = [Some ("Bearer " ++ token)]
          /\ forallb is_console_error logs = true
    | (Thrown _, w') =>
        mirror_of g rt config env req NextFunction (start tc ic n)
        = (Normal tt,
           mkWorld (tokenCache w') (issuerCache w') (steps w')
                   (trace w' ++ [EvSuspend; EvNext])%list)
    end
  else
    exists d logs,
      mirror_of g rt config env req NextFunction (start tc ic n)
      = (Normal tt,
         mkWorld tc ic (4 + n) (d :: EvNext :: EvSuspend :: logs))
      /\ is_dispatch d = true
      /\ authorizations [d]
         = [Some (basic_auth_header (resolved_username config env)
                                    (resolved_password config env))]
      /\ forallb is_console_error logs = true.
Proof.
  intros Hsid Hcap. pose proof (capture_ok_body _ _ Hcap) as Hbody.
  destruct (uses_client_credentials config env) eqn:Hcc; destruct g;
    unfold mirror_of, getAccessToken_of.
  - now apply mirror_bearer_run.
  - now apply Legacy_mirror_bearer_run.
  - now apply mirror_basic_run.
  - now apply Legacy_mirror_basic_run.
Qed.

Lemma dispatch_event (d : Event) :
  is_dispatch d = true ->
  is_next d = false /\ is_suspend d = false /\ is_idp_call d = false.
Proof. destruct d; intros H; try discriminate H; now repeat split. Qed.

(** ** Basic-auth fallback in the middleware *)

(** C7.  When client id and client secret are not both set (one of them
    alone is not enough), the header is "Basic " followed by the base64
    form of "username:password"; building it cannot fail and changes
    nothing, and the request that is dispatched carries exactly that
    header while the identity provider is never called. *)
Theorem basic_auth_when_credentials_incomplete :
  forall (g : Generation) (rt : Runtime) (config : Config) (env : ProcessEnv)
         (req : RequestView) (tc : TokenCache) (ic : option Issuer) (n : nat),
    uses_client_credentials config env = false ->
    truthy (getStreamId config env req) = true ->
    capture_ok rt req = true ->
    let header :=
      "Basic " ++ base64 (resolved_username config env ++ ":"
                          ++ resolved_password config env) in
    (forall (getToken : Config -> M string) (w : World),
        build_auth_header getToken config
          (js_or (clientId config) (FRKR_CLIENT_ID env))
          (js_or (clientSecret config) (FRKR_CLIENT_SECRET env))
          (resolved_username config env) (resolved_password config env) w
        = (Normal (Some header), w))
    /\ let r := mirror_of g rt config env req NextFunction (start tc ic n) in
       fst r = Normal tt
       /\ authorizations (trace (snd r)) = [Some header]
       /\ idp_calls (trace (snd r)) = []
       /\ tokenCache (snd r) = tc
       /\ issuerCache (snd r) = ic.
Proof.
  intros g rt config env req tc ic n Hcc Hsid Hcap. cbv zeta. split.
  - intros getToken w. now apply build_auth_header_basic.
  - pose proof (mirror_run g rt config env req tc ic n Hsid Hcap) as Hrun.
    rewrite Hcc in Hrun. destruct Hrun as (d & logs & Hrun & Hd & Ha & Hl).
    rewrite Hrun. simpl_world.
    destruct (console_errors_silent logs Hl) as (_ & Hla & Hli & _).
    destruct (dispatch_event d Hd) as (_ & _ & Hdi).
    repeat split.
    + change (d :: EvNext :: EvSuspend :: logs)
        with ([d] ++ EvNext :: EvSuspend :: logs)%list.
      rewrite authorizations_app, Ha. simpl. now rewrite Hla.
    + unfold idp_calls in *. simpl. now rewrite Hdi.
Qed.

Lemma basic_auth_when_credentials_incomplete_witness :
  let rt := sample_runtime (mkTokenSet None None) 200 in
  let r := mirror rt half_configured empty_env (express_request "/api/users")
                  NextFunction initial_world in
  uses_client_credentials half_configured empty_env = false
  /\ authorizations (trace (snd r)) = [Some "Basic dTpw"]
  /\ idp_calls (trace (snd r)) = [].
Proof.
  cbv zeta. split; [reflexivity|].
  destruct (basic_auth_when_credentials_incomplete
              Current (sample_runtime (mkTokenSet None None) 200)
              half_configured empty_env (express_request "/api/users")
              (mkTokenCache None 0) None 0 eq_refl eq_refl eq_refl)
    as (_ & _ & Ha & Hi & _).
  split; [exact Ha | exact Hi].
Defined.

(** ** Failed token acquisition *)

(** C9.  When the token acquisition fails (discovery, grant, or any other
    step of it), the token cache is what it was before the attempt, so a
    later request finds no valid token there either and fetches again;
    the request at hand is not dispatched, and [next] is still called
    once. *)
Theorem token_failure_keeps_cache_and_skips_mirror :
  forall (g : Generation) (rt : Runtime) (config : Config) (env : ProcessEnv)
         (req : RequestView) (tc : TokenCache) (ic : option Issuer) (n : nat)
         (e : Error) (w' : World),
    uses_client_credentials config env = true ->
    truthy (getStreamId config env req) = true ->
    capture_ok rt req = true ->
    getAccessToken_of g rt (token_config config env) (start tc ic (3 + n))
    = (Thrown e, w') ->
    let r := mirror_of g rt config env req NextFunction (start tc ic n) in
    tokenCache w' = tc
    /\ fst r = Normal tt
    /\ tokenCache (snd r) = tc
    /\ dispatches (trace (snd r)) = []
    /\ count_next (trace (snd r)) = 1
    /\ forall later : World,
         tokenCache later = tc ->
         (Date_now rt (3 + n) <= Date_now rt (steps later))%Z ->
         fst (cached_token rt later) = Normal None.
Proof.
  intros g rt config env req tc ic n e w' Hcc Hsid Hcap Hfail. cbv zeta.
  assert (Hor : getAccessToken rt (token_config config env) (start tc ic (3 + n))
                = (Thrown e, w')
                \/ Legacy.getAccessToken rt (token_config config env)
                                         (start tc ic (3 + n))
                   = (Thrown e, w')).
  { destruct g; [left|right]; exact Hfail. }
  pose proof (getAccessToken_failure_keeps_cache _ _ _ _ _ Hor) as Hkeep.
  pose proof (getAccessToken_failure_was_miss _ _ _ _ _ Hor) as Hmiss.
  cbn [start tokenCache steps] in Hkeep, Hmiss.
  pose proof (mirror_run g rt config env req tc ic n Hsid Hcap) as Hrun.
  rewrite Hcc, Hfail in Hrun. rewrite Hrun. simpl_world.
  destruct (getAccessToken_events g rt (token_config config env)
              (start tc ic (3 + n))) as (tr & Htr & Htok).
  rewrite Hfail in Htr. cbn [snd start trace app] in Htr.
  destruct (token_events_silent tr Htok) as (Hn & _ & Hd).
  rewrite Htr. repeat split; try assumption.
  - unfold dispatches in *. rewrite filter_app, Hd. reflexivity.
  - rewrite count_next_app, Hn. reflexivity.
  - intros later Hc Hmono. apply cached_token_miss. rewrite Hc.
    destruct Hmiss as [Hm|Hm]; [now left|right; lia].
Qed.

Lemma token_failure_keeps_cache_and_skips_mirror_witness :
  let r := mirror offline_runtime oidc_config empty_env
                  (express_request "/api/users") NextFunction initial_world in
  fst (getAccessToken offline_runtime (token_config oidc_config empty_env)
                      (start (mkTokenCache None 0) None 3))
  = Thrown (mkError "getaddrinfo ENOTFOUND")
  /\ tokenCache (snd r) = mkTokenCache None 0
  /\ dispatches (trace (snd r)) = []
  /\ count_next (trace (snd r)) = 1.
Proof.
  cbv zeta. split; [reflexivity|].
  destruct (token_failure_keeps_cache_and_skips_mirror
              Current offline_runtime oidc_config empty_env
              (express_request "/api/users") (mkTokenCache None 0) None 0
              (mkError "getaddrinfo ENOTFOUND")
              (snd (getAccessToken offline_runtime
                      (token_config oidc_config empty_env)
                      (start (mkTokenCache None 0) None 3)))
              eq_refl eq_refl eq_refl eq_refl)
    as (_ & _ & Hc & Hd & Hn & _).
  repeat split; assumption.
Defined.

(** ** The continuation *)




(** ** Token expiry *)

(** C5, where the code departs from it.  A provider that returns an
    expiry of 0 seconds has its token cached as valid for one hour, not
    until [now + 0 * 1000]: [if (tokenSet.expires_in)] takes 0 for a
    missing expiry.  A request one second later is then served the
    expired token from the cache, without asking the provider. *)
Theorem getAccessToken_zero_expiry_held_one_hour :
  forall g : Generation,
    let rt := sample_runtime (mkTokenSet (Some "tok") (Some 0%Z)) 200 in
    let r := getAccessToken_of g rt oidc_config initial_world in
    let later := mkWorld (tokenCache (snd r)) (issuerCache (snd r)) 1000 [] in
    fst r = Normal "tok"
    /\ tokenCache (snd r)
       = mkTokenCache (Some "tok") (Date_now rt 2 + 3600000)
    /\ expiresAt (tokenCache (snd r)) <> (Date_now rt 2 + 0 * 1000)%Z
    /\ getAccessToken_of g rt oidc_config later
       = (Normal "tok",
          mkWorld (tokenCache (snd r)) (issuerCache (snd r)) 1001 []).
Proof.
  intros g. cbv zeta. destruct g; repeat split; vm_compute; discriminate.
Qed.

(** For every other expiry the provider returns, the cache follows it. *)
Lemma validity_ms_expiry (tok : option string) (secs : Z) :
  secs <> 0%Z -> validity_ms (mkTokenSet tok (Some secs)) = (secs * 1000)%Z.
Proof.
  intros H. unfold validity_ms. simpl.
  destruct (Z.eqb_spec secs 0); [contradiction|reflexivity].
Qed.

Lemma validity_ms_default (tok : option string) :
  validity_ms (mkTokenSet tok None) = 3600000%Z.
Proof. reflexivity. Qed.

(** ** Missing issuer *)

(** The current entry point: with neither [issuer] nor [authDomain] and
    no valid cached token, the acquisition fails before any call to the
    provider, and the request is passed on without being mirrored. *)
Lemma mirror_skips_without_issuer
      (rt : Runtime) (config : Config) (env : ProcessEnv) (req : RequestView)
      (tc : TokenCache) (ic : option Issuer) (n : nat) :
  uses_client_credentials config env = true ->
  truthy (getStreamId config env req) = true ->
  capture_ok rt req = true ->
  opt_truthy (issuer config) = false ->
  opt_truthy (authDomain config) = false ->
  fst (cached_token rt (start tc ic (3 + n))) = Normal None ->
  exists k,
    mirror rt config env req NextFunction (start tc ic n)
    = (Normal tt,
       mkWorld tc ic k
         [EvConsoleError
            "Failed to fetch access token: OIDC issuer or authDomain is required";
          EvSuspend; EvNext]).
Proof.
  intros Hcc Hsid Hcap Hi Hd Hmiss.
  destruct (getAccessToken_requires_issuer rt (token_config config env)
              (start tc ic (3 + n)) Hmiss Hi Hd)
    as (w' & Hfail & Htc & Hic & Htr).
  pose proof (mirror_bearer_run rt config env req tc ic n Hcc Hsid Hcap) as Hrun.
  rewrite Hfail in Hrun. rewrite Hrun.
  cbn [start tokenCache issuerCache trace app] in Htc, Hic, Htr.
  rewrite Htc, Hic, Htr. exists (steps w'). reflexivity.
Qed.

(** C6, where the older entry point departs from it.  With client
    credentials but neither [issuer] nor [authDomain], the older
    [getAccessToken] does not fail: it discovers a built-in issuer,
    obtains a token from it, and the request is mirrored.  The current
    entry point raises the configuration error on the same input. *)
Theorem Legacy_getAccessToken_default_issuer :
  let rt := sample_runtime (mkTokenSet (Some "tok") (Some 3600%Z)) 200 in
  let r := Legacy.getAccessToken rt oidc_config_no_issuer initial_world in
  let m := Legacy.mirror rt oidc_config_no_issuer empty_env
                         (express_request "/api/users") NextFunction
                         initial_world in
  issuer oidc_config_no_issuer = None
  /\ authDomain oidc_config_no_issuer = None
  /\ fst r = Normal "tok"
  /\ trace (snd r)
     = [EvDiscover "https://dev-frkr.us.auth0.com"; EvSuspend;
        EvGrant (IssuerHandle "https://dev-frkr.us.auth0.com")
                (Some "client-id") (Some "client-secret")
                "https://api.frkr.io";
        EvSuspend]
  /\ authorizations (trace (snd m)) = [Some "Bearer tok"]
  /\ fst (getAccessToken rt oidc_config_no_issuer initial_world)
     = Thrown (mkError "OIDC issuer or authDomain is required").
Proof. cbv zeta. repeat split. Qed.

(** ** Worked examples *)

Example resolve_v1 :
  getStreamId (with_streamId (SidObject api_routes)) empty_env
              (express_request "/api/v1/users") = JStr "v1".
Proof. reflexivity. Qed.

Example resolve_api_health :
  getStreamId (with_streamId (SidObject api_routes)) empty_env
              (express_request "/api/health") = JStr "api".
Proof. reflexivity. Qed.

Example resolve_other :
  getStreamId (with_streamId (SidObject api_routes)) empty_env
              (express_request "/other") = JStr "default".
Proof. reflexivity. Qed.

(** Whole segments only: "/api2" is not below "/api". *)
Example resolve_api2 :
  getStreamId (with_streamId (SidObject api_routes)) empty_env
              (express_request "/api2") = JStr "default".
Proof. reflexivity. Qed.

Example resolve_unmatched :
  getStreamId (with_streamId (SidObject (literal [("/x", JStr "a")]))) empty_env
              (express_request "/y") = JNull.
Proof. reflexivity. Qed.

Example resolve_single :
  getStreamId (with_streamId (SidString "my-api")) empty_env
              (express_request "/anything") = JStr "my-api".
Proof. reflexivity. Qed.

Example resolve_from_environment :
  getStreamId empty_config (mkEnv (Some "env-stream") None None None None None None)
              (express_request "/anything") = JStr "env-stream".
Proof. reflexivity. Qed.

Example normalize_query : normalizePath (node_request "/a/b?x=1") = "/a/b".
Proof. reflexivity. Qed.

Example normalize_empty :
  normalizePath (mkRequest "GET" None None [] JUndefined None) = "/".
Proof. reflexivity. Qed.

Example normalize_trailing_slash :
  normalizePath (express_request "/a/") = "/a/".
Proof. reflexivity. Qed.

(** A path that is not a path: the exact lookup finds what the map
    inherits. *)
Example resolve_inherited :
  getStreamId (with_streamId (SidObject (literal [("toString/*", JStr "x")])))
              empty_env (node_request "toString") = JObject 6.
Proof. reflexivity. Qed.

(** Array-index keys come first in [Object.entries]. *)
Example entries_order :
  map fst (Object_entries
             (literal [("/b/*", JNull); ("10", JNull); ("/a", JNull);
                       ("9", JNull); ("01", JNull)]))
  = ["9"; "10"; "/b/*"; "/a"; "01"].
Proof. reflexivity. Qed.

Example base64_rfc4648 :
  base64 "" = "" /\ base64 "f" = "Zg==" /\ base64 "fo" = "Zm8="
  /\ base64 "foo" = "Zm9v" /\ base64 "foob" = "Zm9vYg=="
  /\ base64 "fooba" = "Zm9vYmE=" /\ base64 "foobar" = "Zm9vYmFy".
Proof. repeat split. Qed.

Example default_basic_header :
  basic_auth_header (resolved_username empty_config empty_env)
                    (resolved_password empty_config empty_env)
  = "Basic dGVzdHVzZXI6dGVzdHBhc3M=".
Proof. reflexivity. Qed.

(** An order request is routed by its exact entry, dispatched once with
    basic auth, and passed on although the gateway answers 503. *)
Example end_to_end_orders :
  let rt := sample_runtime (mkTokenSet None None) 503 in
  let r := mirror rt (with_streamId (SidObject order_routes)) empty_env
                  (express_request "/api/orders") NextFunction initial_world in
  fst r = Normal tt
  /\ map (fun e => match e with
                   | EvAxiosPost _ d _ => Some (stream_id d)
                   | _ => None
                   end) (dispatches (trace (snd r)))
     = [Some (JStr "orders-stream")]
  /\ count_next (sync_turn (trace (snd r))) = 1
  /\ filter is_console_error (trace (snd r))
     = [EvConsoleError
          "Failed to mirror request (HTTP): Request failed with status code 503"].
Proof. cbv zeta. repeat split. Qed.

(** The gRPC transport carries the header as call metadata. *)
Example grpc_dispatch :
  let config := mkConfig (SidString "my-api") (Some "grpc") None None None
                         None None None None None in
  let r := mirror offline_runtime config empty_env
                  (express_request "/api/users") NextFunction initial_world in
  authorizations (trace (snd r)) = [Some "Basic dGVzdHVzZXI6dGVzdHBhc3M="]
  /\ count_next (trace (snd r)) = 1
  /\ filter is_console_error (trace (snd r))
     = [EvConsoleError "Failed to mirror request (gRPC): 14 UNAVAILABLE"].
Proof. cbv zeta. repeat split. Qed.

(** Without a callable [next]: the current entry point has nothing to
    call, the older one throws. *)
Example mirror_without_next :
  let rt := sample_runtime (mkTokenSet None None) 200 in
  let config := with_streamId (SidString "my-api") in
  let req := express_request "/api/users" in
  let r := mirror rt config empty_env req NextMissing initial_world in
  let r' := Legacy.mirror rt config empty_env req NextMissing initial_world in
  fst r = Normal tt /\ count_next (trace (snd r)) = 0
  /\ fst r' = Thrown (mkError "next is not a function")
  /\ count_next (trace (snd r')) = 0.
Proof. cbv zeta. repeat split. Qed.

(** A second request inside the validity window is served from the
    cache; once the window is within a minute of its end the provider is
    asked again. *)
Example token_cache_window :
  let rt := sample_runtime (mkTokenSet (Some "tok") (Some 61%Z)) 200 in
  let first := getAccessToken rt oidc_config initial_world in
  let cached := tokenCache (snd first) in
  let iss := issuerCache (snd first) in
  let early := getAccessToken rt oidc_config (mkWorld cached iss 1001 []) in
  let late := getAccessToken rt oidc_config (mkWorld cached iss 1002 []) in
  cached = mkTokenCache (Some "tok") (Date_now rt 2 + 61 * 1000)
  /\ idp_calls (trace (snd early)) = []
  /\ List.length (idp_calls (trace (snd late))) = 1.
Proof. cbv zeta. repeat split. Qed.

(* ================================================================= *)
(** * Further properties *)

(** ** Strings, continued *)

Lemma string_app_assoc (a b c : string) : (a ++ b) ++ c = a ++ b ++ c.
Proof. induction a as [|x a IH]; simpl; [reflexivity | now rewrite IH]. Qed.

Lemma starts_with_spec (p s : string) :
  starts_with p s = true <-> exists rest, s = p ++ rest.
Proof.
  revert s. induction p as [|a p IH]; intros s; simpl.
  - split; [intros _; now exists s | reflexivity].
  - destruct s as [|b s].
    + split; [discriminate | intros [rest H]; discriminate H].
    + rewrite andb_true_iff, Ascii.eqb_eq, IH. split.
      * intros [-> [rest ->]]. now exists rest.
      * intros [rest H]. inversion H; subst. split; [reflexivity|now exists rest].
Qed.


(** ** Path normaliser *)




(** ** Stream resolver, continued *)

(** X3.  [FRKR_STREAM_ID] is consulted only when [config.streamId] is
    falsy, and then every request is routed to it; a truthy
    [config.streamId] of any kind (a map that matches nothing, a number)
    makes the variable irrelevant. *)
Theorem getStreamId_environment :
  forall (config : Config) (env : ProcessEnv) (req : RequestView),
    if sid_truthy (streamId config)
    then forall env' : ProcessEnv,
           getStreamId config env' req = getStreamId config env req
    else getStreamId config env req
         = match FRKR_STREAM_ID env with
           | Some s => JStr s
           | None => JNull
           end.
Proof.
  intros config env req. unfold getStreamId, streamIdConfig.
  destruct (sid_truthy (streamId config)) eqn:E.
  - reflexivity.
  - now destruct (FRKR_STREAM_ID env).
Qed.

(** X4.  A wildcard pattern [prefix/*] matches whole segments only: the
    prefix itself, and the paths that continue it with "/". *)
Theorem wildcard_whole_segments :
  forall p prefix : string,
    prefix_matches p (prefix ++ "/*") = true
    <-> p = prefix \/ exists rest, p = prefix ++ "/" ++ rest.
Proof.
  intros p prefix. rewrite prefix_matches_spec, orb_true_iff, String.eqb_eq,
    starts_with_spec.
  split; (intros [H|[rest H]]; [now left|right; exists rest]).
  - now rewrite <- string_app_assoc.
  - now rewrite string_app_assoc.
Qed.

Lemma scan_prefixes_none (p : string) (l : list (string * JsVal)) :
  (forall k v, In (k, v) l -> ends_with "/*" k = true ->
               k = p \/ prefix_matches p k = false) ->
  scan_prefixes p l = None.
Proof.
  induction l as [|[k v] l IH]; intros H; simpl; [reflexivity|].
  rewrite IH by (intros k' v' HIn; apply (H k' v'); now right).
  destruct (String.eqb k "*"); simpl; [reflexivity|].
  destruct (String.eqb k p) eqn:E; [reflexivity|].
  destruct (ends_with "/*" k) eqn:W; [|reflexivity].
  destruct (H k v (or_introl eq_refl) W) as [Hk|Hk].
  - apply String.eqb_neq in E. contradiction.
  - now rewrite Hk.
Qed.

(** X5.  When the path is no entry's pattern and no wildcard entry
    matches it, the map's "*" entry decides; without one the resolver
    returns [null]. *)
Theorem getStreamId_catch_all :
  forall (config : Config) (env : ProcessEnv) (o : JsObject)
         (req : RequestView),
    streamId config = SidObject o ->
    obj_get o (normalizePath req) = JUndefined ->
    (forall k v, In (k, v) (props o) -> ends_with "/*" k = true ->
                 k = normalizePath req
                 \/ prefix_matches (normalizePath req) k = false) ->
    getStreamId config env req
    = if is_undefined (obj_get o "*") then JNull else obj_get o "*".
Proof.
  intros config env o req Hc Hget Hno. unfold getStreamId.
  rewrite (streamIdConfig_object _ env _ Hc). cbv zeta.
  rewrite Hget. cbn [is_undefined negb].
  rewrite scan_prefixes_declared_order, (scan_prefixes_none _ _ Hno).
  now destruct (is_undefined (obj_get o "*")).
Qed.

Lemma getStreamId_catch_all_witness :
  let config := with_streamId (SidObject api_routes) in
  let req := express_request "/other" in
  obj_get api_routes (normalizePath req) = JUndefined
  /\ getStreamId config empty_env req = JStr "default"
  /\ getStreamId (with_streamId (SidObject (literal [("/x", JStr "a")])))
                 empty_env (express_request "/y") = JNull.
Proof.
  cbv zeta. split; [reflexivity|]. split.
  - apply (getStreamId_catch_all (with_streamId (SidObject api_routes))
             empty_env api_routes (express_request "/other")
             eq_refl eq_refl).
    intros k v HIn W. simpl in HIn.
    destruct HIn as [H|[H|[H|[]]]]; inversion H; subst;
      first [right; reflexivity | discriminate W].
  - apply (getStreamId_catch_all
             (with_streamId (SidObject (literal [("/x", JStr "a")])))
             empty_env (literal [("/x", JStr "a")]) (express_request "/y")
             eq_refl eq_refl).
    intros k v HIn W. simpl in HIn.
    destruct HIn as [H|[]]; inversion H; subst. discriminate W.
Defined.

Lemma own_lookup_remove (key k : string) (v : JsVal)
      (before after : list (string * JsVal)) :
  k <> key ->
  own_lookup key (before ++ (k, v) :: after) = own_lookup key (before ++ after).
Proof.
  intros Hne. induction before as [|[k' v'] before IH]; simpl.
  - apply String.eqb_neq in Hne. now rewrite Hne.
  - now rewrite IH.
Qed.

Lemma scan_prefixes_remove (p k : string) (v : JsVal)
      (before after : list (string * JsVal)) :
  ends_with "/*" k = false ->
  scan_prefixes p (before ++ (k, v) :: after) = scan_prefixes p (before ++ after).
Proof.
  intros W. induction before as [|[k' v'] before IH]; simpl.
  - rewrite W. simpl. now destruct (_ || _)%bool.
  - now rewrite IH.
Qed.

(** X6.  An entry whose pattern is neither the path, nor "*", nor a
    wildcard ending in "/*" takes no part in the resolution: the map
    without it resolves the request to the same stream. *)
Theorem getStreamId_ignores_dead_entry :
  forall (config : Config) (env : ProcessEnv) (o : JsObject)
         (req : RequestView) (before after : list (string * JsVal))
         (k : string) (v : JsVal),
    streamId config = SidObject o ->
    props o = (before ++ (k, v) :: after)%list ->
    k <> normalizePath req ->
    k <> "*" ->
    ends_with "/*" k = false ->
    getStreamId config env req
    = getStreamId
        (set_streamId (SidObject (with_props o (before ++ after))) config)
        env req.
Proof.
  intros config env o req before after k v Hc Hprops Hpath Hstar W.
  unfold getStreamId. rewrite (streamIdConfig_object _ env _ Hc).
  rewrite (streamIdConfig_object
             (set_streamId (SidObject (with_props o (before ++ after))) config)
             env _ eq_refl).
  cbv zeta. rewrite !scan_prefixes_declared_order.
  unfold obj_get, with_props. cbn [props inherited]. rewrite Hprops.
  rewrite !own_lookup_remove by assumption.
  now rewrite scan_prefixes_remove.
Qed.

Lemma getStreamId_ignores_dead_entry_witness :
  let routes := literal [("/api/v1/*", JStr "v1"); ("api/*/users", JStr "dead");
                         ("/api/*", JStr "api")] in
  let pruned := literal [("/api/v1/*", JStr "v1"); ("/api/*", JStr "api")] in
  let req := express_request "/api/orders" in
  ends_with "/*" "api/*/users" = false
  /\ getStreamId (with_streamId (SidObject routes)) empty_env req
     = getStreamId (with_streamId (SidObject pruned)) empty_env req.
Proof.
  cbv zeta. split; [reflexivity|].
  apply (getStreamId_ignores_dead_entry
           (with_streamId
              (SidObject (literal [("/api/v1/*", JStr "v1");
                                   ("api/*/users", JStr "dead");
                                   ("/api/*", JStr "api")])))
           empty_env
           (literal [("/api/v1/*", JStr "v1"); ("api/*/users", JStr "dead");
                     ("/api/*", JStr "api")])
           (express_request "/api/orders")
           [("/api/v1/*", JStr "v1")] [("/api/*", JStr "api")]
           "api/*/users" (JStr "dead") eq_refl eq_refl);
    [discriminate | discriminate | reflexivity].
Defined.

Lemma scan_prefixes_In (p : string) (l : list (string * JsVal)) (sid : JsVal) :
  scan_prefixes p l = Some sid -> exists k, In (k, sid) l.
Proof.
  induction l as [|[k v] l IH]; simpl; [discriminate|].
  destruct (_ || _)%bool.
  - intros H. destruct (IH H) as [k' Hk']. exists k'. now right.
  - destruct (_ && _)%bool.
    + intros H. inversion H; subst. exists k. now left.
    + intros H. destruct (IH H) as [k' Hk']. exists k'. now right.
Qed.

Lemma own_lookup_Some_In (key : string) (l : list (string * JsVal)) (v : JsVal) :
  own_lookup key l = Some v -> In (key, v) l.
Proof.
  induction l as [|[k w] l IH]; simpl; [discriminate|].
  destruct (String.eqb k key) eqn:E.
  - intros H. inversion H; subst. apply String.eqb_eq in E. subst. now left.
  - intros H. right. now apply IH.
Qed.

(** X7.  The resolver never invents a stream id from a pattern map: when
    the map inherits nothing under the path or under "*", the result is
    [null] or the value of one of the map's own entries. *)
Theorem getStreamId_from_entries :
  forall (config : Config) (env : ProcessEnv) (o : JsObject)
         (req : RequestView),
    streamId config = SidObject o ->
    inherited o (normalizePath req) = JUndefined ->
    inherited o "*" = JUndefined ->
    getStreamId config env req = JNull
    \/ exists k, In (k, getStreamId config env req) (props o).
Proof.
  intros config env o req Hc Hp Hstar. unfold getStreamId.
  rewrite (streamIdConfig_object _ env _ Hc). cbv zeta.
  rewrite scan_prefixes_declared_order. unfold obj_get. rewrite Hp, Hstar.
  destruct (own_lookup (normalizePath req) (props o)) as [v|] eqn:E1.
  - destruct (is_undefined v) eqn:U; cbn [negb].
    + destruct (scan_prefixes (normalizePath req) (props o)) as [sid|] eqn:E2.
      * right. now apply (scan_prefixes_In (normalizePath req)).
      * destruct (own_lookup "*" (props o)) as [c|] eqn:E3; [|now left].
        destruct (is_undefined c); cbn [negb]; [now left|].
        right. exists "*". now apply own_lookup_Some_In.
    + right. exists (normalizePath req). now apply own_lookup_Some_In.
  - cbn [is_undefined negb].
    destruct (scan_prefixes (normalizePath req) (props o)) as [sid|] eqn:E2.
    + right. now apply (scan_prefixes_In (normalizePath req)).
    + destruct (own_lookup "*" (props o)) as [c|] eqn:E3; [|now left].
      destruct (is_undefined c); cbn [negb]; [now left|].
      right. exists "*". now apply own_lookup_Some_In.
Qed.

Lemma getStreamId_from_entries_witness :
  let req := express_request "/api/health" in
  inherited api_routes (normalizePath req) = JUndefined
  /\ (getStreamId (with_streamId (SidObject api_routes)) empty_env req = JNull
      \/ exists k, In (k, getStreamId (with_streamId (SidObject api_routes))
                                      empty_env req)
                      (props api_routes)).
Proof.
  cbv zeta. split; [reflexivity|].
  exact (getStreamId_from_entries (with_streamId (SidObject api_routes))
           empty_env api_routes (express_request "/api/health")
           eq_refl eq_refl eq_refl).
Defined.

(** ** Credential provider, continued *)

Lemma Legacy_issuerUrl_agrees (config : Config) (url : string) :
  issuerUrl_of config = Some url -> str_truthy url = true ->
  Legacy.issuerUrl_of config = url.
Proof.
  unfold issuerUrl_of, Legacy.issuerUrl_of, js_or, js_or_default.
  destruct (issuer config) as [i|]; simpl.
  - destruct (str_truthy i) eqn:E.
    + intros H _. now inversion H.
    + destruct (authDomain config) as [d|]; [|discriminate].
      destruct (str_truthy d); [|discriminate]. intros H _. now inversion H.
  - destruct (authDomain config) as [d|]; [|discriminate].
    destruct (str_truthy d); [|discriminate]. intros H _. now inversion H.
Qed.

(** Both generations, once the issuer URL is known. *)
Lemma getAccessToken_of_resolved (g : Generation) (rt : Runtime)
      (config : Config) (url : string) (w : World) :
  issuerUrl_of config = Some url -> str_truthy url = true ->
  getAccessToken_of g rt config w
  = (hit <- cached_token rt ;;
     match hit with
     | Some tok => ret tok
     | None =>
         try_catch (fetch_token rt config url)
                   (fun err =>
                      console_error "Failed to fetch access token:" err ;;
                      throw err)
     end) w.
Proof.
  intros Hurl Ht. destruct g; unfold getAccessToken_of.
  - unfold getAccessToken. now rewrite Hurl, Ht.
  - unfold Legacy.getAccessToken.
    now rewrite (Legacy_issuerUrl_agrees _ _ Hurl Ht).
Qed.

Lemma getAccessToken_generations_agree_both (rt : Runtime) (config : Config)
      (w : World) :
  opt_truthy (issuerUrl_of config) = true ->
  Legacy.getAccessToken rt config w = getAccessToken rt config w.
Proof.
  intros H.
  destruct (issuerUrl_of config) as [url|] eqn:Hurl; [|discriminate].
  simpl in H.
  pose proof (getAccessToken_of_resolved Current rt config url w Hurl H) as H1.
  pose proof (getAccessToken_of_resolved Older rt config url w Hurl H) as H2.
  unfold getAccessToken_of in H1, H2. now rewrite H1, H2.
Qed.

(** X8.  The two generations of [getAccessToken] behave alike on every
    configuration from which an issuer URL can be determined: they
    differ only when neither [issuer] nor [authDomain] is set. *)
Theorem getAccessToken_generations_agree :
  forall (rt : Runtime) (config : Config) (w : World),
    opt_truthy (issuerUrl_of config) = true ->
    Legacy.getAccessToken rt config w = getAccessToken rt config w.
Proof.
  intros rt config w H.
  destruct (issuerUrl_of config) as [url|] eqn:Hurl; [|discriminate].
  simpl in H.
  pose proof (getAccessToken_of_resolved Current rt config url w Hurl H) as H1.
  pose proof (getAccessToken_of_resolved Older rt config url w Hurl H) as H2.
  unfold getAccessToken_of in H1, H2. now rewrite H1, H2.
Qed.

Lemma getAccessToken_generations_agree_witness :
  opt_truthy (issuerUrl_of oidc_config) = true
  /\ Legacy.getAccessToken offline_runtime oidc_config initial_world
     = getAccessToken offline_runtime oidc_config initial_world.
Proof.
  split; [reflexivity|].
  apply (getAccessToken_generations_agree offline_runtime oidc_config
           initial_world).
  reflexivity.
Defined.

(** X9.  A valid cached token is handed to every caller: the answer does
    not depend on the configuration the caller passes (client id,
    audience, issuer), and a configuration without any issuer raises no
    error while the cache is valid. *)
Theorem getAccessToken_cache_ignores_config :
  forall (g : Generation) (rt : Runtime) (config config' : Config)
         (w : World) (tok : string),
    accessToken (tokenCache w) = Some tok ->
    str_truthy tok = true ->
    (Date_now rt (steps w) < expiresAt (tokenCache w) - 60000)%Z ->
    getAccessToken_of g rt config w = getAccessToken_of g rt config' w
    /\ fst (getAccessToken_of g rt config w) = Normal tok
    /\ trace (snd (getAccessToken_of g rt config w)) = trace w.
Proof.
  intros g rt config config' w tok Htok Ht Hlt.
  destruct (getAccessToken_cache_hit rt config w tok Htok Ht Hlt) as [H1 H2].
  destruct (getAccessToken_cache_hit rt config' w tok Htok Ht Hlt) as [H1' H2'].
  destruct g; unfold getAccessToken_of.
  - rewrite H1, H1'. now repeat split.
  - rewrite H2, H2'. now repeat split.
Qed.

Lemma getAccessToken_cache_ignores_config_witness :
  let rt := sample_runtime (mkTokenSet (Some "other") (Some 3600%Z)) 200 in
  let w := mkWorld (mkTokenCache (Some "tok") 1700000090000) None 0 [] in
  (Date_now rt (steps w) < expiresAt (tokenCache w) - 60000)%Z
  /\ getAccessToken rt oidc_config w = getAccessToken rt oidc_config_no_issuer w
  /\ fst (getAccessToken rt oidc_config_no_issuer w) = Normal "tok".
Proof.
  cbv zeta. split; [reflexivity|].
  destruct (getAccessToken_cache_ignores_config Current
              (sample_runtime (mkTokenSet (Some "other") (Some 3600%Z)) 200)
              oidc_config_no_issuer oidc_config
              (mkWorld (mkTokenCache (Some "tok") 1700000090000) None 0 [])
              "tok" eq_refl eq_refl eq_refl) as (H1 & H2 & _).
  split; [symmetry; exact H1 | exact H2].
Defined.

(** X10.  A call to [getAccessToken] asks the provider at most once for
    discovery and at most once for a grant, and writes at most one line
    to the console: nothing is retried within a call. *)
Theorem getAccessToken_no_retry :
  forall (g : Generation) (rt : Runtime) (config : Config)
         (tc : TokenCache) (ic : option Issuer) (n : nat),
    let tr := trace (snd (getAccessToken_of g rt config (start tc ic n))) in
    List.length (filter is_discover tr) <= 1
    /\ List.length (filter is_grant tr) <= 1
    /\ List.length (filter is_console_error tr) <= 1.
Proof.
  intros g rt config tc ic n. cbv zeta.
  destruct g; unfold getAccessToken_of, start; run_token; split_cases;
    cbn; repeat split; lia.
Qed.

(** X11.  Once an issuer has been discovered it is kept for good: a
    later call, whatever issuer URL its configuration names and however
    it ends, performs no discovery and leaves the cached issuer in
    place. *)
Theorem issuer_cache_write_once :
  forall (g : Generation) (rt : Runtime) (config : Config)
         (tc : TokenCache) (i : Issuer) (n : nat),
    let r := getAccessToken_of g rt config (start tc (Some i) n) in
    issuerCache (snd r) = Some i
    /\ filter is_discover (trace (snd r)) = [].
Proof.
  intros g rt config tc i n. cbv zeta.
  destruct g; unfold getAccessToken_of, start; run_token; split_cases;
    split; reflexivity.
Qed.

(** With no usable cached token and the issuer URL known, a provider
    that cannot be discovered makes the call fail with the provider's own
    error, after one console line and without any grant. *)
Lemma discovery_failure_run (g : Generation) (rt : Runtime) (config : Config)
      (tc : TokenCache) (n : nat) (url : string) (e : Error) :
  fst (cached_token rt (start tc None n)) = Normal None ->
  issuerUrl_of config = Some url ->
  str_truthy url = true ->
  (forall k, Issuer_discover rt k url = Thrown e) ->
  exists k,
    getAccessToken_of g rt config (start tc None n)
    = (Thrown e,
       mkWorld tc None k
         [EvDiscover url; EvSuspend;
          EvConsoleError ("Failed to fetch access token: " ++ message e)]).
Proof.
  intros Hmiss Hurl Ht Hd.
  rewrite (getAccessToken_of_resolved g rt config url _ Hurl Ht).
  revert Hmiss. unfold cached_token, fetch_token, start. run_monad.
  split_cases; intros Hmiss; try discriminate Hmiss;
    repeat match goal with
           | H : Issuer_discover _ _ _ = _ |- _ =>
               rewrite Hd in H; inversion H; subst; clear H
           end;
    eexists; reflexivity.
Qed.

(** X12.  When discovery fails, [getAccessToken] rethrows the very error
    the provider raised, after logging it once; no grant is requested
    and neither cache is written. *)
Theorem discovery_failure_propagates :
  forall (g : Generation) (rt : Runtime) (config : Config)
         (tc : TokenCache) (n : nat) (url : string) (e : Error),
    fst (cached_token rt (start tc None n)) = Normal None ->
    issuerUrl_of config = Some url ->
    str_truthy url = true ->
    (forall k, Issuer_discover rt k url = Thrown e) ->
    let r := getAccessToken_of g rt config (start tc None n) in
    fst r = Thrown e
    /\ tokenCache (snd r) = tc
    /\ issuerCache (snd r) = None
    /\ trace (snd r)
       = [EvDiscover url; EvSuspend;
          EvConsoleError ("Failed to fetch access token: " ++ message e)].
Proof.
  intros g rt config tc n url e Hmiss Hurl Ht Hd. cbv zeta.
  destruct (discovery_failure_run g rt config tc n url e Hmiss Hurl Ht Hd)
    as [k ->].
  now repeat split.
Qed.

Lemma discovery_failure_propagates_witness :
  let r := getAccessToken offline_runtime oidc_config initial_world in
  issuerUrl_of oidc_config = Some "https://tenant.example.com"
  /\ fst r = Thrown (mkError "getaddrinfo ENOTFOUND")
  /\ trace (snd r)
     = [EvDiscover "https://tenant.example.com"; EvSuspend;
        EvConsoleError "Failed to fetch access token: getaddrinfo ENOTFOUND"].
Proof.
  cbv zeta. split; [reflexivity|].
  destruct (discovery_failure_propagates Current offline_runtime oidc_config
              (mkTokenCache None 0) 0 "https://tenant.example.com"
              (mkError "getaddrinfo ENOTFOUND") eq_refl eq_refl eq_refl
              (fun _ => eq_refl)) as (H1 & _ & _ & H2).
  split; [exact H1 | exact H2].
Defined.

(** X13.  A grant that comes back without an access token is an error of
    its own ("No access_token received from provider"): the token cache
    is not written, while the issuer discovered on the way stays
    cached. *)
Theorem grant_without_token_fails :
  forall (g : Generation) (rt : Runtime) (config : Config)
         (tc : TokenCache) (n : nat) (url : string) (i : Issuer)
         (ts : TokenSet),
    fst (cached_token rt (start tc None n)) = Normal None ->
    issuerUrl_of config = Some url ->
    str_truthy url = true ->
    (forall k, Issuer_discover rt k url = Normal i) ->
    (forall k cid cs aud, client_grant rt k i cid cs aud = Normal ts) ->
    opt_truthy (access_token ts) = false ->
    let r := getAccessToken_of g rt config (start tc None n) in
    fst r = Thrown (mkError "No access_token received from provider")
    /\ tokenCache (snd r) = tc
    /\ issuerCache (snd r) = Some i
    /\ trace (snd r)
       = [EvDiscover url; EvSuspend;
          EvGrant i (clientId config) (clientSecret config)
                  (js_or_default (audience config) "https://api.frkr.io");
          EvSuspend;
          EvConsoleError
            "Failed to fetch access token: No access_token received from provider"].
Proof.
  intros g rt config tc n url i ts Hmiss Hurl Ht Hd Hg Hno. cbv zeta.
  rewrite (getAccessToken_of_resolved g rt config url _ Hurl Ht).
  revert Hmiss. unfold cached_token, fetch_token, start. run_monad.
  split_cases; intros Hmiss; try discriminate Hmiss;
    repeat match goal with
           | H : Issuer_discover _ _ _ = _ |- _ =>
               rewrite Hd in H; inversion H; subst; clear H
           | H : client_grant _ _ _ _ _ _ = _ |- _ =>
               rewrite Hg in H; inversion H; subst; clear H
           end;
    try match goal with
        | H : access_token ?t = Some ?tok, H' : str_truthy ?tok = true |- _ =>
            rewrite H in Hno; simpl in Hno; rewrite H' in Hno; discriminate Hno
        end;
    now repeat split.
Qed.

Lemma grant_without_token_fails_witness :
  let r := getAccessToken tokenless_runtime oidc_config initial_world in
  fst r = Thrown (mkError "No access_token received from provider")
  /\ tokenCache (snd r) = mkTokenCache None 0
  /\ issuerCache (snd r) = Some (IssuerHandle "https://tenant.example.com").
Proof.
  cbv zeta.
  destruct (grant_without_token_fails Current tokenless_runtime oidc_config
              (mkTokenCache None 0) 0 "https://tenant.example.com"
              (IssuerHandle "https://tenant.example.com")
              (mkTokenSet None (Some 3600%Z)) eq_refl eq_refl eq_refl
              (fun _ => eq_refl) (fun _ _ _ _ => eq_refl) eq_refl)
    as (H1 & H2 & H3 & _).
  repeat split; assumption.
Defined.

(** X14.  An explicit [issuer] wins over [authDomain]: with both set,
    discovery goes to the issuer URL. *)
Theorem explicit_issuer_wins :
  forall (g : Generation) (rt : Runtime) (config : Config)
         (tc : TokenCache) (n : nat) (url : string),
    fst (cached_token rt (start tc None n)) = Normal None ->
    issuer config = Some url ->
    str_truthy url = true ->
    hd_error (trace (snd (getAccessToken_of g rt config (start tc None n))))
    = Some (EvDiscover url).
Proof.
  intros g rt config tc n url Hmiss Hi Ht.
  assert (Hurl : issuerUrl_of config = Some url).
  { unfold issuerUrl_of, js_or. rewrite Hi. simpl. now rewrite Ht. }
  rewrite (getAccessToken_of_resolved g rt config url _ Hurl Ht).
  revert Hmiss. unfold cached_token, fetch_token, start. run_monad.
  split_cases; intros Hmiss; try discriminate Hmiss; reflexivity.
Qed.

Lemma explicit_issuer_wins_witness :
  let config := mkConfig (SidString "my-api") None None None None
                         (Some "client-id") (Some "client-secret")
                         (Some "https://login.example.org")
                         (Some "tenant.example.com") None in
  issuer config = Some "https://login.example.org"
  /\ hd_error (trace (snd (getAccessToken offline_runtime config initial_world)))
     = Some (EvDiscover "https://login.example.org").
Proof.
  cbv zeta. split; [reflexivity|].
  exact (explicit_issuer_wins Current offline_runtime
           (mkConfig (SidString "my-api") None None None None
                     (Some "client-id") (Some "client-secret")
                     (Some "https://login.example.org")
                     (Some "tenant.example.com") None)
           (mkTokenCache None 0) 0 "https://login.example.org"
           eq_refl eq_refl eq_refl).
Defined.

(** ** The middleware, piece by piece *)

(** The middleware is its four steps in sequence, in both generations. *)
Lemma mirror_of_steps (g : Generation) (rt : Runtime) (config : Config)
      (env : ProcessEnv) (req : RequestView) (next : NextArg) (w : World) :
  mirror_of g rt config env req next w
  = if truthy (getStreamId config env req) then
      match capture_request_of g rt req (getStreamId config env req) w with
      | (Normal rd, w1) =>
          match build_auth_header (getAccessToken_of g rt) config
                  (js_or (clientId config) (FRKR_CLIENT_ID env))
                  (js_or (clientSecret config) (FRKR_CLIENT_SECRET env))
                  (resolved_username config env) (resolved_password config env)
                  w1 with
          | (Normal (Some authHeader), w2) =>
              dispatch_of g rt config env rd authHeader next w2
          | (Normal None, w2) => call_next_of g next w2
          | (Thrown e, w2) => (Thrown e, w2)
          end
      | (Thrown e, w1) => (Thrown e, w1)
      end
    else call_next_of g next w.
Proof.
  destruct g; unfold mirror_of, mirror, Legacy.mirror, capture_request_of,
    dispatch_of, call_next_of, getAccessToken_of, resolved_username,
    resolved_password, resolve_setting; cbv zeta;
    (destruct (truthy (getStreamId config env req)); cbn [negb];
     [|reflexivity]);
    unfold bind at 1;
    match goal with
    | |- context [match ?c with _ => _ end] =>
        lazymatch c with
        | capture_request _ _ _ _ => destruct c as [[rd|e] w1]
        | Legacy.capture_request _ _ _ _ => destruct c as [[rd|e] w1]
        end
    end; try reflexivity;
    unfold bind at 1;
    match goal with
    | |- context [build_auth_header ?a1 ?a2 ?a3 ?a4 ?a5 ?a6 ?a7] =>
        destruct (build_auth_header a1 a2 a3 a4 a5 a6 a7) as [[[h|]|err] w2]
    end; reflexivity.
Qed.

(** Capturing the request reads the clock and the random source and
    touches neither the caches nor the trace; when it throws, nothing at
    all has happened. *)
Lemma capture_request_of_frame (g : Generation) (rt : Runtime)
      (req : RequestView) (sid : JsVal) (w : World) :
  match capture_request_of g rt req sid w with
  | (Normal rd, w1) =>
      w1 = mkWorld (tokenCache w) (issuerCache w) (3 + steps w) (trace w)
      /\ stream_id rd = sid
      /\ path (request rd) = normalizePath req
      /\ method (request rd) = req_method req
      /\ headers (request rd) = req_headers req
      /\ timestamp_ns (request rd) = (Date_now rt (steps w) * 1000000)%Z
      /\ request_id (request rd)
         = "req-" ++ Z_to_string (Date_now rt (1 + steps w)) ++ "-"
           ++ Math_random_base36 rt (2 + steps w)
      /\ (truthy (req_body req) = false -> body (request rd) = "")
      /\ (truthy (req_body req) = true ->
          JSON_stringify rt (req_body req) = Normal (body (request rd)))
      /\ (forall q, req_query req = Some q -> query (request rd) = q)
  | (Thrown e, w1) =>
      w1 = w
      /\ ((truthy (req_body req) = true
           /\ JSON_stringify rt (req_body req) = Thrown e)
          \/ (g = Current /\ req_query req = None
              /\ URL_searchParams rt (req_url req) = Thrown e))
  end.
Proof.
  destruct g; unfold capture_request_of, capture_request,
    Legacy.capture_request, capture_body, fresh_request_id; run_monad;
    destruct (truthy (req_body req)) eqn:Hb;
    try destruct (JSON_stringify rt (req_body req)) eqn:Hj;
    destruct (req_query req) eqn:Hq;
    try destruct (URL_searchParams rt (req_url req)) eqn:Hu;
    cbn [stream_id request path method headers timestamp_ns request_id body
         query plus];
    repeat split; try reflexivity; try discriminate; try (now destruct w);
    try (intros q' Hq'; now inversion Hq'); auto.
Qed.

(** Calling [next] (or failing to) leaves the caches alone. *)
Lemma call_next_of_run (g : Generation) (next : NextArg) (w : World) :
  call_next_of g next w
  = match next, g with
    | NextFunction, _ => (Normal tt, record_event EvNext w)
    | NextMissing, Current => (Normal tt, w)
    | NextMissing, Older => (Thrown (mkError "next is not a function"), w)
    end.
Proof. destruct g, next; reflexivity. Qed.

(** Dispatch in full: one delivery to the selected destination, [next]
    in the same turn when there is one, and only console lines after the
    turn has ended. *)
Lemma dispatch_of_run (g : Generation) (rt : Runtime) (config : Config)
      (env : ProcessEnv) (rd : RequestData) (hdr : string) (next : NextArg)
      (w : World) :
  exists d logs,
    dispatch_of g rt config env rd hdr next w
    = (match next, g with
       | NextMissing, Older => Thrown (mkError "next is not a function")
       | _, _ => Normal tt
       end,
       mkWorld (tokenCache w) (issuerCache w) (S (steps w))
               (trace w ++ d :: match next with
                                | NextFunction => [EvNext]
                                | NextMissing => []
                                end ++ EvSuspend :: logs)%list)
    /\ is_dispatch d = true
    /\ dispatched_data [d] = [rd]
    /\ destinations [d] = [destination_of g config env]
    /\ (str_truthy hdr = true -> authorizations [d] = [Some hdr])
    /\ forallb is_console_error logs = true.
Proof.
  destruct g; unfold dispatch_of, destination_of.
  - unfold dispatch, select_transport.
    destruct (String.eqb (transportType_of config env) "grpc").
    + unfold GrpcTransport.new, GrpcTransport.send, send, detached,
        promise_catch, settle, call_if_function.
      run_monad.
      destruct (grpc_call rt (steps w) (GrpcTransport.address_of config env));
        destruct next; simpl_world; rewrite <- !app_assoc; simpl;
        eexists; eexists; (split; [reflexivity|]);
        repeat split; try reflexivity; intros Hh; now rewrite Hh.
    + unfold HttpTransport.new, HttpTransport.send, send, detached,
        promise_catch, settle, call_if_function, axios_post.
      run_monad.
      destruct (axios_settles _) as [[]|err];
        destruct next; simpl_world; rewrite <- !app_assoc; simpl;
        eexists; eexists; (split; [reflexivity|]);
        repeat split; reflexivity.
  - unfold Legacy.dispatch, Legacy.call_next, detached, promise_catch, settle,
      axios_post.
    run_monad.
    destruct (axios_settles _) as [[]|err];
      destruct next; simpl_world; rewrite <- !app_assoc; simpl;
      eexists; eexists; (split; [reflexivity|]);
      repeat split; reflexivity.
Qed.

(** The header step, by generation and by kind of credentials. *)
Lemma build_auth_header_of_run (g : Generation) (rt : Runtime)
      (config : Config) (env : ProcessEnv) (w : World) :
  build_auth_header (getAccessToken_of g rt) config
    (js_or (clientId config) (FRKR_CLIENT_ID env))
    (js_or (clientSecret config) (FRKR_CLIENT_SECRET env))
    (resolved_username config env) (resolved_password config env) w
  = if uses_client_credentials config env then
      match getAccessToken_of g rt (token_config config env) w with
      | (Normal token, w') =>
          (Normal (Some ("Bearer " ++ token)), record_event EvSuspend w')
      | (Thrown _, w') => (Normal None, record_event EvSuspend w')
      end
    else
      (Normal (Some (basic_auth_header (resolved_username config env)
                                       (resolved_password config env))), w).
Proof.
  unfold uses_client_credentials, token_config.
  destruct (_ && _)%bool eqn:E.
  - now apply build_auth_header_bearer.
  - now apply build_auth_header_basic.
Qed.

(** The middleware changes the caches only through [getAccessToken]. *)
Lemma mirror_of_state (g : Generation) (rt : Runtime) (config : Config)
      (env : ProcessEnv) (req : RequestView) (next : NextArg) (w : World) :
  let r := mirror_of g rt config env req next w in
  (tokenCache (snd r) = tokenCache w /\ issuerCache (snd r) = issuerCache w)
  \/ exists w0,
       tokenCache w0 = tokenCache w /\ issuerCache w0 = issuerCache w
       /\ tokenCache (snd r)
          = tokenCache (snd (getAccessToken_of g rt (token_config config env) w0))
       /\ issuerCache (snd r)
          = issuerCache (snd (getAccessToken_of g rt (token_config config env) w0)).
Proof.
  cbv zeta. rewrite mirror_of_steps.
  destruct (truthy (getStreamId config env req)).
  - pose proof (capture_request_of_frame g rt req (getStreamId config env req) w)
      as Hcap.
    destruct (capture_request_of g rt req (getStreamId config env req) w)
      as [[rd|e] w1].
    + destruct Hcap as [-> _]. rewrite build_auth_header_of_run.
      destruct (uses_client_credentials config env).
      * right.
        exists (mkWorld (tokenCache w) (issuerCache w) (3 + steps w) (trace w)).
        split; [reflexivity|]. split; [reflexivity|].
        destruct (getAccessToken_of g rt (token_config config env) _)
          as [[tok|e] w2]; cbn [snd].
        -- destruct (dispatch_of_run g rt config env rd ("Bearer " ++ tok)
                       next (record_event EvSuspend w2))
             as (d & logs & -> & _).
           now split.
        -- rewrite call_next_of_run. destruct next, g; now split.
      * left.
        destruct (dispatch_of_run g rt config env rd
                    (basic_auth_header (resolved_username config env)
                                       (resolved_password config env))
                    next
                    (mkWorld (tokenCache w) (issuerCache w) (3 + steps w)
                             (trace w)))
          as (d & logs & -> & _).
        now split.
    + destruct Hcap as [-> _]. now left.
  - left. rewrite call_next_of_run. destruct next, g; now split.
Qed.

(** ** The caches over the life of the process *)

Lemma getAccessToken_of_keeps_issuer (g : Generation) (rt : Runtime)
      (config : Config) (w : World) (i : Issuer) :
  issuerCache w = Some i ->
  issuerCache (snd (getAccessToken_of g rt config w)) = Some i.
Proof.
  intros H. destruct g; unfold getAccessToken_of; run_token;
    split_cases; congruence.
Qed.

Lemma getAccessToken_of_cache_ok (g : Generation) (rt : Runtime)
      (config : Config) (w : World) :
  cache_ok (tokenCache w) = true ->
  cache_ok (tokenCache (snd (getAccessToken_of g rt config w))) = true
  /\ (accessToken (tokenCache w) <> None ->
      accessToken (tokenCache (snd (getAccessToken_of g rt config w))) <> None).
Proof.
  intros H. destruct g; unfold getAccessToken_of; run_token; split_cases;
    (split; [first [exact H | unfold cache_ok; simpl; assumption]
            | first [intros _; discriminate | exact (fun x => x)
                    | congruence]]).
Qed.

(** X15.  No request ever evicts or replaces the discovered issuer:
    whatever the request, its outcome and its third argument, an issuer
    that is cached before the middleware runs is cached after it. *)
Theorem mirror_never_evicts_issuer :
  forall (g : Generation) (rt : Runtime) (config : Config) (env : ProcessEnv)
         (req : RequestView) (next : NextArg) (w : World) (i : Issuer),
    issuerCache w = Some i ->
    issuerCache (snd (mirror_of g rt config env req next w)) = Some i.
Proof.
  intros g rt config env req next w i H.
  destruct (mirror_of_state g rt config env req next w)
    as [[_ Hi]|(w0 & _ & Hi0 & _ & Hi)]; rewrite Hi.
  - exact H.
  - apply getAccessToken_of_keeps_issuer. now rewrite Hi0.
Qed.

Lemma mirror_never_evicts_issuer_witness :
  let w := mkWorld (mkTokenCache None 0) (Some (IssuerHandle "cached")) 0 [] in
  issuerCache w = Some (IssuerHandle "cached")
  /\ issuerCache (snd (mirror offline_runtime oidc_config empty_env
                              (express_request "/api/users") NextFunction w))
     = Some (IssuerHandle "cached").
Proof.
  cbv zeta. split; [reflexivity|].
  apply (mirror_never_evicts_issuer Current offline_runtime oidc_config
           empty_env (express_request "/api/users") NextFunction
           (mkWorld (mkTokenCache None 0) (Some (IssuerHandle "cached")) 0 [])).
  reflexivity.
Defined.

(** X16.  The token cache stays well formed across requests: it never
    holds an empty token, and a token once cached is only ever replaced
    by another token, never cleared. *)
Theorem mirror_keeps_token_cache_well_formed :
  forall (g : Generation) (rt : Runtime) (config : Config) (env : ProcessEnv)
         (req : RequestView) (next : NextArg) (w : World),
    cache_ok (tokenCache w) = true ->
    let w' := snd (mirror_of g rt config env req next w) in
    cache_ok (tokenCache w') = true
    /\ (accessToken (tokenCache w) <> None ->
        accessToken (tokenCache w') <> None).
Proof.
  intros g rt config env req next w H. cbv zeta.
  destruct (mirror_of_state g rt config env req next w)
    as [[Ht _]|(w0 & Ht0 & _ & Ht & _)]; rewrite Ht.
  - split; [exact H | exact (fun x => x)].
  - rewrite <- Ht0 in H |- *.
    exact (getAccessToken_of_cache_ok g rt (token_config config env) w0 H).
Qed.

Lemma mirror_keeps_token_cache_well_formed_witness :
  let rt := sample_runtime (mkTokenSet (Some "fresh") (Some 3600%Z)) 200 in
  let w := mkWorld (mkTokenCache (Some "stale") 0) None 0 [] in
  let w' := snd (mirror rt oidc_config empty_env (express_request "/api/users")
                        NextFunction w) in
  cache_ok (tokenCache w) = true
  /\ cache_ok (tokenCache w') = true
  /\ accessToken (tokenCache w') = Some "fresh".
Proof.
  cbv zeta. split; [reflexivity|].
  destruct (mirror_keeps_token_cache_well_formed Current
              (sample_runtime (mkTokenSet (Some "fresh") (Some 3600%Z)) 200)
              oidc_config empty_env (express_request "/api/users") NextFunction
              (mkWorld (mkTokenCache (Some "stale") 0) None 0 []) eq_refl)
    as [H _].
  split; [exact H | reflexivity].
Defined.

(** ** What is dispatched *)

Lemma dispatched_data_app (a b : list Event) :
  dispatched_data (a ++ b) = (dispatched_data a ++ dispatched_data b)%list.
Proof.
  induction a as [|e a IH]; [reflexivity|].
  destruct e; simpl; now rewrite IH.
Qed.

Lemma destinations_app (a b : list Event) :
  destinations (a ++ b) = (destinations a ++ destinations b)%list.
Proof.
  induction a as [|e a IH]; [reflexivity|].
  destruct e; simpl; now rewrite IH.
Qed.

Lemma quiet_events (l : list Event) :
  forallb (fun e => negb (is_dispatch e)) l = true ->
  dispatched_data l = [] /\ destinations l = [] /\ authorizations l = [].
Proof.
  induction l as [|e l IH]; [now repeat split|].
  simpl. intros H. apply andb_true_iff in H. destruct H as [He Hl].
  destruct (IH Hl) as (H1 & H2 & H3).
  destruct e; try discriminate He; now repeat split.
Qed.

Lemma token_events_quiet (l : list Event) :
  forallb is_token_event l = true ->
  forallb (fun e => negb (is_dispatch e)) l = true.
Proof.
  induction l as [|e l IH]; [reflexivity|]. simpl. intros H.
  apply andb_true_iff in H. destruct H as [He Hl]. rewrite (IH Hl).
  now destruct e.
Qed.

Lemma console_errors_quiet (l : list Event) :
  forallb is_console_error l = true ->
  forallb (fun e => negb (is_dispatch e)) l = true.
Proof.
  induction l as [|e l IH]; [reflexivity|]. simpl. intros H.
  apply andb_true_iff in H. destruct H as [He Hl]. rewrite (IH Hl).
  now destruct e.
Qed.

(** What one run of the middleware adds to an empty trace, as far as
    deliveries go. *)
Lemma mirror_of_deliveries (g : Generation) (rt : Runtime) (config : Config)
      (env : ProcessEnv) (req : RequestView) (next : NextArg)
      (tc : TokenCache) (ic : option Issuer) (n : nat) :
  let tr := trace (snd (mirror_of g rt config env req next (start tc ic n))) in
  let sent :=
    (truthy (getStreamId config env req)
     && completes (fst (capture_request_of g rt req
                          (getStreamId config env req) (start tc ic n)))
     && (negb (uses_client_credentials config env)
         || completes (fst (getAccessToken_of g rt (token_config config env)
                              (start tc ic (3 + n))))))%bool in
  if sent then
    exists rd,
      fst (capture_request_of g rt req (getStreamId config env req)
                              (start tc ic n)) = Normal rd
      /\ dispatched_data tr = [rd]
      /\ destinations tr = [destination_of g config env]
  else dispatched_data tr = [] /\ destinations tr = [].
Proof.
  cbv zeta. rewrite mirror_of_steps.
  destruct (truthy (getStreamId config env req)); cbn [andb].
  - pose proof (capture_request_of_frame g rt req (getStreamId config env req)
                  (start tc ic n)) as Hcap.
    destruct (capture_request_of g rt req (getStreamId config env req)
                                 (start tc ic n)) as [[rd|e] w1];
      cbn [fst completes andb].
    + destruct Hcap as [-> _]. cbn [start tokenCache issuerCache steps trace].
      rewrite build_auth_header_of_run.
      change (mkWorld tc ic (3 + n) []) with (start tc ic (3 + n)).
      destruct (uses_client_credentials config env); cbn [negb orb].
      * destruct (getAccessToken_events g rt (token_config config env)
                    (start tc ic (3 + n))) as (tr & Htr & Htok).
        cbn [start trace app] in Htr.
        destruct (quiet_events tr (token_events_quiet tr Htok))
          as (Hq1 & Hq2 & _).
        destruct (getAccessToken_of g rt (token_config config env)
                                    (start tc ic (3 + n)))
          as [[tok|e] w2]; cbn [fst snd completes] in *.
        -- destruct (dispatch_of_run g rt config env rd ("Bearer " ++ tok)
                       next (record_event EvSuspend w2))
             as (d & logs & -> & _ & Hd1 & Hd2 & _ & Hl).
           destruct (quiet_events logs (console_errors_quiet logs Hl))
             as (Hl1 & Hl2 & _).
           exists rd. split; [reflexivity|].
           unfold record_event. simpl_world. rewrite Htr.
           rewrite !dispatched_data_app, !destinations_app, Hq1, Hq2.
           change (d :: ?l) with ([d] ++ l)%list.
           rewrite !dispatched_data_app, !destinations_app, Hd1, Hd2.
           destruct next; simpl; now rewrite Hl1, Hl2.
        -- rewrite call_next_of_run. unfold record_event.
           destruct next, g; simpl_world; rewrite Htr;
             rewrite ?dispatched_data_app, ?destinations_app, Hq1, Hq2;
             now split.
      * destruct (dispatch_of_run g rt config env rd
                    (basic_auth_header (resolved_username config env)
                                       (resolved_password config env))
                    next (start tc ic (3 + n)))
          as (d & logs & -> & _ & Hd1 & Hd2 & _ & Hl).
        destruct (quiet_events logs (console_errors_quiet logs Hl))
          as (Hl1 & Hl2 & _).
        exists rd. split; [reflexivity|].
        cbn [start snd trace app].
        change (d :: ?l) with ([d] ++ l)%list.
        rewrite !dispatched_data_app, !destinations_app, Hd1, Hd2.
        destruct next; simpl; now rewrite Hl1, Hl2.
    + destruct Hcap as [-> _]. now split.
  - rewrite call_next_of_run. destruct next, g; now split.
Qed.

(** X17.  A request is mirrored at most once, whatever happens: the run
    of the middleware hands either nothing to the wire, or exactly one
    envelope.  That envelope carries the resolved stream id (a truthy
    value), the normalised path, and the request's method and headers,
    and it goes to the one destination the configuration selects (the
    gRPC address when the transport is exactly "grpc", the gateway's
    /ingest URL for any other value). *)
Theorem mirror_dispatches_at_most_once :
  forall (g : Generation) (rt : Runtime) (config : Config) (env : ProcessEnv)
         (req : RequestView) (next : NextArg)
         (tc : TokenCache) (ic : option Issuer) (n : nat),
    let tr := trace (snd (mirror_of g rt config env req next (start tc ic n))) in
    (dispatched_data tr = [] /\ destinations tr = [])
    \/ exists rd,
         dispatched_data tr = [rd]
         /\ destinations tr = [destination_of g config env]
         /\ stream_id rd = getStreamId config env req
         /\ truthy (stream_id rd) = true
         /\ path (request rd) = normalizePath req
         /\ method (request rd) = req_method req
         /\ headers (request rd) = req_headers req.
Proof.
  intros g rt config env req next tc ic n. cbv zeta.
  pose proof (mirror_of_deliveries g rt config env req next tc ic n) as H.
  cbv zeta in H.
  destruct (truthy (getStreamId config env req)) eqn:Hsid; cbn [andb] in H;
    [|now left].
  pose proof (capture_request_of_frame g rt req (getStreamId config env req)
                (start tc ic n)) as Hcap.
  destruct (_ && _)%bool; [|now left].
  destruct H as (rd & Hrd & Hd1 & Hd2). right. exists rd.
  destruct (capture_request_of g rt req (getStreamId config env req)
                               (start tc ic n)) as [[rd'|e] w1];
    cbn [fst] in Hrd; inversion Hrd; subst rd'.
  destruct Hcap as (_ & Hs & Hp & Hm & Hh & _).
  rewrite Hs, Hsid. now repeat split.
Qed.





(** ** When the envelope cannot be built *)

(** X20.  Nothing guards the serialisation of the body: when a stream
    resolves and [JSON.stringify] throws on a truthy [req.body], the
    middleware's promise rejects with that error and nothing else
    happens: [next] is not called, nothing is dispatched, and neither
    the clock nor the caches are touched. *)
Theorem mirror_rejects_unserialisable_body :
  forall (g : Generation) (rt : Runtime) (config : Config) (env : ProcessEnv)
         (req : RequestView) (next : NextArg) (w : World) (e : Error),
    truthy (getStreamId config env req) = true ->
    truthy (req_body req) = true ->
    JSON_stringify rt (req_body req) = Thrown e ->
    mirror_of g rt config env req next w = (Thrown e, w).
Proof.
  intros g rt config env req next w e Hsid Hb Hj.
  rewrite mirror_of_steps, Hsid.
  assert (Hcap : capture_request_of g rt req (getStreamId config env req) w
                 = (Thrown e, w)).
  { destruct g; unfold capture_request_of, capture_request,
      Legacy.capture_request, capture_body; run_monad;
      now rewrite Hb, Hj. }
  now rewrite Hcap.
Qed.

Lemma mirror_rejects_unserialisable_body_witness :
  let req := mkRequest "POST" (Some "/api/users") (Some "/api/users") []
                       (JObject 0) (Some []) in
  truthy (req_body req) = true
  /\ mirror unserialisable_runtime (with_streamId (SidString "my-api"))
            empty_env req NextFunction initial_world
     = (Thrown (mkError "Converting circular structure to JSON"),
        initial_world).
Proof.
  cbv zeta. split; [reflexivity|].
  exact (mirror_rejects_unserialisable_body Current unserialisable_runtime
           (with_streamId (SidString "my-api")) empty_env
           (mkRequest "POST" (Some "/api/users") (Some "/api/users") []
                      (JObject 0) (Some []))
           NextFunction initial_world
           (mkError "Converting circular structure to JSON")
           eq_refl eq_refl eq_refl).
Defined.

(** X21.  The two generations differ on a request without [req.query]
    whose URL does not parse: the current entry point rejects with the
    parser's error before anything else happens, the older one takes an
    empty query and passes the request on as usual. *)
Theorem mirror_query_fallback_differs :
  forall (rt : Runtime) (config : Config) (env : ProcessEnv)
         (req : RequestView) (tc : TokenCache) (ic : option Issuer) (n : nat)
         (e : Error),
    truthy (getStreamId config env req) = true ->
    body_serialises rt req = true ->
    req_query req = None ->
    URL_searchParams rt (req_url req) = Thrown e ->
    mirror rt config env req NextFunction (start tc ic n)
    = (Thrown e, start tc ic n)
    /\ fst (Legacy.mirror rt config env req NextFunction (start tc ic n))
       = Normal tt
    /\ count_next (trace (snd (Legacy.mirror rt config env req NextFunction
                                             (start tc ic n)))) = 1.
Proof.
  intros rt config env req tc ic n e Hsid Hbody Hq Hu. split.
  - pose proof (mirror_of_steps Current rt config env req NextFunction
                  (start tc ic n)) as Hsteps.
    unfold mirror_of in Hsteps. rewrite Hsteps, Hsid.
    assert (Hcap : capture_request_of Current rt req
                     (getStreamId config env req) (start tc ic n)
                   = (Thrown e, start tc ic n)).
    { unfold capture_request_of, capture_request, capture_body.
      unfold body_serialises in Hbody. run_monad.
      destruct (truthy (req_body req)); simpl in Hbody;
        [destruct (JSON_stringify rt (req_body req)); [|discriminate Hbody]|];
        now rewrite Hq, Hu. }
    now rewrite Hcap.
  - destruct (uses_client_credentials config env) eqn:Hcc.
    + pose proof (Legacy_mirror_bearer_run rt config env req tc ic n
                    Hcc Hsid Hbody) as Hrun.
      destruct (getAccessToken_events Older rt (token_config config env)
                  (start tc ic (3 + n))) as (tr & Htr & Htok).
      unfold getAccessToken_of in Htr. cbn [start trace app] in Htr.
      destruct (token_events_silent tr Htok) as (Hn & _ & _).
      destruct (Legacy.getAccessToken rt (token_config config env)
                                      (start tc ic (3 + n)))
        as [[token|err] w'].
      * destruct Hrun as (d & logs & -> & Hd & _ & Hl).
        cbn [snd] in Htr. simpl_world. rewrite Htr.
        destruct (console_errors_silent logs Hl) as (Hln & _).
        destruct (dispatch_event d Hd) as (Hdn & _ & _).
        split; [reflexivity|].
        rewrite count_next_app, Hn. unfold count_next in *. simpl.
        rewrite Hdn. simpl. now rewrite Hln.
      * rewrite Hrun. cbn [snd] in Htr. simpl_world. rewrite Htr.
        split; [reflexivity|]. rewrite count_next_app, Hn. reflexivity.
    + destruct (Legacy_mirror_basic_run rt config env req tc ic n
                  Hcc Hsid Hbody) as (d & logs & -> & Hd & _ & Hl).
      destruct (console_errors_silent logs Hl) as (Hln & _).
      destruct (dispatch_event d Hd) as (Hdn & _ & _).
      split; [reflexivity|]. simpl_world.
      unfold count_next in *. simpl. rewrite Hdn. simpl. now rewrite Hln.
Qed.

Lemma mirror_query_fallback_differs_witness :
  let config := with_streamId (SidString "my-api") in
  let req := node_request "//" in
  req_query req = None
  /\ mirror unparsable_runtime config empty_env req NextFunction initial_world
     = (Thrown (mkError "Invalid URL"), initial_world)
  /\ count_next (trace (snd (Legacy.mirror unparsable_runtime config empty_env
                                           req NextFunction initial_world)))
     = 1.
Proof.
  cbv zeta. split; [reflexivity|].
  destruct (mirror_query_fallback_differs unparsable_runtime
              (with_streamId (SidString "my-api")) empty_env
              (node_request "//") (mkTokenCache None 0) None 0
              (mkError "Invalid URL") eq_refl eq_refl eq_refl eq_refl)
    as (H1 & _ & H2).
  split; [exact H1 | exact H2].
Defined.

(** ** Token reuse across requests *)



(** ** The third argument *)











(** ** The basic-auth header *)

(** X25.  The basic-auth header is "Basic " followed by text that
    base64-decodes to "username:password", so two pairs of credentials
    share a header exactly when their joined forms coincide (a colon in
    the user name is not told apart from the separator). *)
Theorem basic_auth_header_faithful :
  forall u1 p1 u2 p2 : string,
    (exists b, basic_auth_header u1 p1 = "Basic " ++ b
               /\ base64_decode b = Some (u1 ++ ":" ++ p1))
    /\ (basic_auth_header u1 p1 = basic_auth_header u2 p2
        <-> u1 ++ ":" ++ p1 = u2 ++ ":" ++ p2)
    /\ basic_auth_header (u1 ++ ":" ++ p1) p2
       = basic_auth_header u1 (p1 ++ ":" ++ p2).
Proof.
  intros u1 p1 u2 p2. split; [|split].
  - exists (base64 (u1 ++ ":" ++ p1)). split; [reflexivity|].
    apply base64_roundtrip.
  - split; [apply basic_auth_header_injective|].
    unfold basic_auth_header. now intros ->.
  - unfold basic_auth_header. do 2 f_equal.
    now rewrite !string_app_assoc.
Qed.

(** ** The transport capability *)


(** ** The two generations side by side *)

Lemma capture_generations_agree (rt : Runtime) (req : RequestView)
      (sid : JsVal) (w : World) (q : list (string * string)) :
  req_query req = Some q ->
  Legacy.capture_request rt req sid w = capture_request rt req sid w.
Proof.
  intros Hq. unfold capture_request, Legacy.capture_request, capture_body,
    fresh_request_id. run_monad. rewrite Hq.
  destruct (truthy (req_body req)); [|reflexivity].
  now destruct (JSON_stringify rt (req_body req)).
Qed.

Lemma dispatch_generations_agree (rt : Runtime) (config : Config)
      (env : ProcessEnv) (rd : RequestData) (hdr : string) (w : World) :
  String.eqb (transportType_of config env) "grpc" = false ->
  exists d logs logs',
    dispatch_of Current rt config env rd hdr NextFunction w
    = (Normal tt,
       mkWorld (tokenCache w) (issuerCache w) (S (steps w))
               (trace w ++ d :: EvNext :: EvSuspend :: logs)%list)
    /\ dispatch_of Older rt config env rd hdr NextFunction w
       = (Normal tt,
          mkWorld (tokenCache w) (issuerCache w) (S (steps w))
                  (trace w ++ d :: EvNext :: EvSuspend :: logs')%list)
    /\ is_dispatch d = true
    /\ forallb is_console_error logs = true
    /\ forallb is_console_error logs' = true
    /\ List.length logs = List.length logs'.
Proof.
  intros Hhttp. unfold dispatch_of, dispatch, select_transport. rewrite Hhttp.
  unfold Legacy.dispatch, Legacy.call_next, HttpTransport.new,
    HttpTransport.send, send, detached, promise_catch, settle,
    call_if_function, axios_post, HttpTransport.ingestGatewayUrl_of,
    resolve_setting.
  run_monad.
  destruct (axios_settles _) as [[]|err];
    simpl_world; rewrite <- !app_assoc; simpl;
    eexists; eexists; eexists; (split; [reflexivity|]);
    (split; [reflexivity|]); repeat split.
Qed.

Lemma filter_not_console_error_logs (l : list Event) :
  forallb is_console_error l = true -> filter not_console_error l = [].
Proof.
  induction l as [|x l IH]; [reflexivity|]. simpl. intros H.
  apply andb_true_iff in H. destruct H as [Hx Hl].
  destruct x; try discriminate Hx. simpl. now apply IH.
Qed.

(** X27.  Moving delivery into the HTTP transport changed nothing a
    host can observe but the wording of the failure line: for a request
    that carries [req.query], with the transport left at HTTP and an
    issuer determinable whenever client credentials are used, both
    generations complete alike, leave the same caches, and produce the
    same events in the same order, console lines aside (and as many of
    those). *)
Theorem generations_agree_on_http :
  forall (rt : Runtime) (config : Config) (env : ProcessEnv)
         (req : RequestView) (tc : TokenCache) (ic : option Issuer) (n : nat)
         (q : list (string * string)),
    String.eqb (transportType_of config env) "grpc" = false ->
    req_query req = Some q ->
    (uses_client_credentials config env = true ->
     opt_truthy (issuerUrl_of config) = true) ->
    let r := mirror rt config env req NextFunction (start tc ic n) in
    let r' := Legacy.mirror rt config env req NextFunction (start tc ic n) in
    fst r' = fst r
    /\ filter not_console_error (trace (snd r'))
       = filter not_console_error (trace (snd r))
    /\ List.length (trace (snd r')) = List.length (trace (snd r))
    /\ tokenCache (snd r') = tokenCache (snd r)
    /\ issuerCache (snd r') = issuerCache (snd r).
Proof.
  intros rt config env req tc ic n q Hhttp Hq Hiss. cbv zeta.
  pose proof (mirror_of_steps Current rt config env req NextFunction
                (start tc ic n)) as H1.
  pose proof (mirror_of_steps Older rt config env req NextFunction
                (start tc ic n)) as H2.
  unfold mirror_of in H1, H2. rewrite H1, H2. clear H1 H2.
  destruct (truthy (getStreamId config env req)); [|now repeat split].
  unfold capture_request_of. rewrite (capture_generations_agree _ _ _ _ _ Hq).
  destruct (capture_request rt req (getStreamId config env req) (start tc ic n))
    as [[rd|e] w1]; [|now repeat split].
  rewrite !build_auth_header_of_run.
  destruct (uses_client_credentials config env).
  - assert (Hsame : getAccessToken_of Older rt (token_config config env) w1
                    = getAccessToken_of Current rt (token_config config env) w1).
    { unfold getAccessToken_of.
      apply getAccessToken_generations_agree_both. exact (Hiss eq_refl). }
    rewrite Hsame.
    destruct (getAccessToken_of Current rt (token_config config env) w1)
      as [[tok|e] w2]; [|now repeat split].
    destruct (dispatch_generations_agree rt config env rd ("Bearer " ++ tok)
                (record_event EvSuspend w2) Hhttp)
      as (d & logs & logs' & -> & -> & Hd & Hl & Hl' & Hlen).
    simpl_world. repeat split.
    + rewrite !filter_app. simpl.
      now rewrite (filter_not_console_error_logs logs Hl),
        (filter_not_console_error_logs logs' Hl').
    + rewrite !List.length_app. simpl. now rewrite Hlen.
  - destruct (dispatch_generations_agree rt config env rd
                (basic_auth_header (resolved_username config env)
                                   (resolved_password config env))
                w1 Hhttp)
      as (d & logs & logs' & -> & -> & Hd & Hl & Hl' & Hlen).
    simpl_world. repeat split.
    + rewrite !filter_app. simpl.
      now rewrite (filter_not_console_error_logs logs Hl),
        (filter_not_console_error_logs logs' Hl').
    + rewrite !List.length_app. simpl. now rewrite Hlen.
Qed.

Lemma generations_agree_on_http_witness :
  let rt := sample_runtime (mkTokenSet (Some "tok") (Some 3600%Z)) 503 in
  let req := express_request "/api/users" in
  let r := mirror rt oidc_config empty_env req NextFunction initial_world in
  let r' := Legacy.mirror rt oidc_config empty_env req NextFunction
                          initial_world in
  req_query req = Some []
  /\ fst r' = fst r
  /\ filter not_console_error (trace (snd r'))
     = filter not_console_error (trace (snd r))
  /\ trace (snd r') <> trace (snd r).
Proof.
  cbv zeta. split; [reflexivity|].
  destruct (generations_agree_on_http
              (sample_runtime (mkTokenSet (Some "tok") (Some 3600%Z)) 503)
              oidc_config empty_env (express_request "/api/users")
              (mkTokenCache None 0) None 0 [] eq_refl eq_refl
              (fun _ => eq_refl)) as (H1 & H2 & _).
  split; [exact H1|]. split; [exact H2|]. discriminate.
Defined.

(** ** Routing and the query string *)

Lemma split_head_before_marker (c : ascii) (u q : string) :
  has_char c u = false -> split_head c (u ++ String c q) = u.
Proof.
  induction u as [|a u IH]; simpl.
  - intros _. now rewrite Ascii.eqb_refl.
  - intros H. apply orb_false_iff in H. destruct H as [Ha Hu].
    rewrite Ha. now rewrite (IH Hu).
Qed.

Lemma split_head_no_marker (c : ascii) (u : string) :
  has_char c u = false -> split_head c u = u.
Proof.
  induction u as [|a u IH]; simpl; [reflexivity|].
  intros H. apply orb_false_iff in H. destruct H as [Ha Hu].
  rewrite Ha. now rewrite (IH Hu).
Qed.

Lemma getStreamId_by_path (config : Config) (env : ProcessEnv)
      (req req' : RequestView) :
  (forall f, streamId config <> SidFunction f) ->
  normalizePath req = normalizePath req' ->
  getStreamId config env req = getStreamId config env req'.
Proof.
  intros Hnf Hp. unfold getStreamId, streamIdConfig.
  destruct (sid_truthy (streamId config)).
  - destruct (streamId config) as [f| | | |]; try reflexivity.
    + exfalso. now apply (Hnf f).
    + cbv zeta. now rewrite Hp.
  - now destruct (FRKR_STREAM_ID env).
Qed.

(** X28.  Unless a function does the routing, the query string plays no
    part in it: a request seen through its raw URL resolves to the same
    stream with and without "?...". *)
Theorem routing_ignores_query_string :
  forall (config : Config) (env : ProcessEnv) (u q : string)
         (m : string) (h : list (string * string)) (b : JsVal)
         (qu : option (list (string * string))),
    (forall f, streamId config <> SidFunction f) ->
    u <> "" ->
    has_char "?" u = false ->
    getStreamId config env (mkRequest m None (Some (u ++ "?" ++ q)) h b qu)
    = getStreamId config env (mkRequest m None (Some u) h b qu).
Proof.
  intros config env u q m h b qu Hnf Hne Hq.
  apply getStreamId_by_path; [exact Hnf|].
  unfold normalizePath. cbn [req_path req_url opt_truthy negb andb option_map].
  assert (Ht : str_truthy u = true).
  { unfold str_truthy. apply negb_true_iff, String.eqb_neq. exact Hne. }
  assert (Ht' : str_truthy (u ++ "?" ++ q) = true).
  { destruct u; [contradiction|reflexivity]. }
  rewrite Ht, Ht'. cbn [option_map].
  change (u ++ "?" ++ q) with (u ++ String "?" q).
  now rewrite split_head_before_marker, split_head_no_marker.
Qed.

Lemma routing_ignores_query_string_witness :
  let config := with_streamId (SidObject api_routes) in
  has_char "?" "/api/v1/users" = false
  /\ getStreamId config empty_env (node_request "/api/v1/users?page=2&x=/other")
     = getStreamId config empty_env (node_request "/api/v1/users").
Proof.
  cbv zeta. split; [reflexivity|].
  apply (routing_ignores_query_string (with_streamId (SidObject api_routes))
           empty_env "/api/v1/users" "page=2&x=/other" "GET" [] JUndefined None);
    [intros f H; discriminate H | discriminate | reflexivity].
Defined.

(** ** From refresh to reuse *)

Lemma getAccessToken_of_success_token (g : Generation) (rt : Runtime)
      (config : Config) (w w' : World) (tok : string) :
  getAccessToken_of g rt config w = (Normal tok, w') ->
  accessToken (tokenCache w') = Some tok /\ str_truthy tok = true.
Proof.
  destruct g; unfold getAccessToken_of; run_token; split_cases;
    intros H; inversion H; subst; simpl_world; cbn [opt_truthy] in *;
    first [split; [reflexivity|assumption] | now split].
Qed.

(** X29.  What a call returns is what the following calls are served:
    after [getAccessToken] has succeeded, any later call made while the
    clock is more than a minute short of the recorded expiry returns the
    same token, for any configuration, without an event. *)
Theorem granted_token_is_served :
  forall (g : Generation) (rt : Runtime) (config config' : Config)
         (w w' later : World) (tok : string),
    getAccessToken_of g rt config w = (Normal tok, w') ->
    tokenCache later = tokenCache w' ->
    (Date_now rt (steps later) < expiresAt (tokenCache w') - 60000)%Z ->
    fst (getAccessToken_of g rt config' later) = Normal tok
    /\ trace (snd (getAccessToken_of g rt config' later)) = trace later
    /\ tokenCache (snd (getAccessToken_of g rt config' later)) = tokenCache w'.
Proof.
  intros g rt config config' w w' later tok Hrun Hsame Hlt.
  destruct (getAccessToken_of_success_token g rt config w w' tok Hrun)
    as [Htok Ht].
  rewrite <- Hsame in Htok, Hlt.
  destruct (getAccessToken_cache_hit rt config' later tok Htok Ht Hlt)
    as [H1 H2].
  destruct g; unfold getAccessToken_of; [rewrite H1|rewrite H2];
    now repeat split.
Qed.

Lemma granted_token_is_served_witness :
  let rt := sample_runtime (mkTokenSet (Some "tok") (Some 3600%Z)) 200 in
  let first := getAccessToken rt oidc_config initial_world in
  let later := mkWorld (tokenCache (snd first)) (issuerCache (snd first))
                       4000 [] in
  fst first = Normal "tok"
  /\ fst (getAccessToken rt oidc_config_no_issuer later) = Normal "tok"
  /\ trace (snd (getAccessToken rt oidc_config_no_issuer later)) = [].
Proof.
  cbv zeta. split; [reflexivity|].
  destruct (granted_token_is_served Current
              (sample_runtime (mkTokenSet (Some "tok") (Some 3600%Z)) 200)
              oidc_config oidc_config_no_issuer initial_world
              (snd (getAccessToken
                      (sample_runtime (mkTokenSet (Some "tok") (Some 3600%Z)) 200)
                      oidc_config initial_world))
              (mkWorld (mkTokenCache (Some "tok") 1700003600002)
                       (Some (IssuerHandle "https://tenant.example.com"))
                       4000 [])
              "tok" eq_refl eq_refl eq_refl) as (H1 & H2 & _).
  split; [exact H1 | exact H2].
Defined.
